(** * pyelfcmp: the structural diff engine of [elfcmp], embedded and verified

    The development follows the three source files:
    - [utils.py]   : [locate_array_diff], [DictDiff], [compare_dict];
    - [structs.py] : the result records ([SectionDiff], [Block], ...);
    - [elfcmp.py]  : [ComparableElf] and its comparison steps.

    Python integers are [Z]; byte strings are [list byte]; dictionaries are
    [gmap]s and sets are [gset]s keyed by hashable atoms (an [int] or a
    [str]); exceptions are the [Raise] results of an error monad; the one
    list object that the code shares between calls lives in an explicit
    [heap]. *)

From Stdlib Require Import ZArith Lia.
From Stdlib.Strings Require Import Byte.
From stdpp Require Import gmap strings list fin_maps sorting.

Set Warnings "-register-all,-clear-no-such-hyp".
#[local] Open Scope Z_scope.

(** ** Python values *)

(** Hashable scalars: what the code uses as dictionary keys (header field
    names, section names, segment types and offsets). *)
Inductive atom := Int (n : Z) | Str (s : string).

#[global] Instance atom_eq_dec : EqDecision atom.
Proof. solve_decision. Defined.

#[global] Instance atom_countable : Countable atom.
Proof.
  refine (inj_countable'
            (fun k => match k with Int n => inl n | Str s => inr s end)
            (fun x => match x with inl n => Int n | inr s => Str s end) _).
  by intros [].
Defined.

(** Values stored in the header dictionaries: scalars, a list of integers
    (the magic number [EI_MAG]) and nested mappings. *)
Inductive value :=
  | Atom (a : atom)
  | Ints (l : list Z)
  | Dict (d : gmap atom value).

Fixpoint value_eq_dec (v1 v2 : value) {struct v1} : Decision (v1 = v2).
Proof.
  refine (match v1, v2 with
          | Atom a, Atom b => cast_if (decide (a = b))
          | Ints a, Ints b => cast_if (decide (a = b))
          | Dict d1, Dict d2 =>
              cast_if (@decide (d1 = d2)
                         (@gmap_eq_dec atom _ _ value value_eq_dec d1 d2))
          | _, _ => right _
          end); abstract congruence.
Defined.

#[global] Instance value_eq : EqDecision value := value_eq_dec.

(** [operator.eq] on values. *)
Definition operator_eq (v1 v2 : value) : bool := bool_decide (v1 = v2).

(** ** Exceptions *)

Inductive exn :=
  | IndexError
  | KeyError
  | OSError
  | ValueError
  | OverflowError.

Inductive result (A : Type) := Ok (a : A) | Raise (e : exn).
Arguments Ok {A} a.
Arguments Raise {A} e.

Definition rbind {A B : Type} (r : result A) (k : A -> result B) : result B :=
  match r with
  | Ok a => k a
  | Raise e => Raise e
  end.

Notation "'let?' x ':=' r 'in' k" := (rbind r (fun x => k))
  (at level 10, x name, r at level 100, k at level 200).

(** A [for] loop whose body may raise: the first exception ends it. *)
Fixpoint for_each {A B : Type} (body : B -> A -> result B) (l : list A)
    (acc : B) : result B :=
  match l with
  | [] => Ok acc
  | x :: l' => let? acc' := body acc x in for_each body l' acc'
  end.

(** [d[key]] *)
Definition getitem {V : Type} (d : gmap atom V) (key : atom) : result V :=
  match d !! key with
  | Some v => Ok v
  | None => Raise KeyError
  end.

(** ** Lists *)

(** [list.sort(key=...)] is a stable sort; insertion sort, with each element
    put before the first element of the sorted rest whose key is not smaller,
    is the stable sort on lists. *)
Fixpoint insert_by_key {A : Type} (key : A -> Z) (x : A) (l : list A)
    : list A :=
  match l with
  | [] => [x]
  | y :: r => if key x <=? key y then x :: l else y :: insert_by_key key x r
  end.

Definition sort_by_key {A : Type} (key : A -> Z) (l : list A) : list A :=
  foldr (insert_by_key key) [] l.

(** The order [sort_by_key] sorts by. *)
Definition key_le {A : Type} (key : A -> Z) (x y : A) : Prop :=
  key x <= key y.

(** [len(l)] *)
Definition len {A : Type} (l : list A) : Z := Z.of_nat (length l).


(** ** utils.py *)

(** [byte_array[i]] for an index the caller keeps below [len]. *)
Definition byte_at (a : list byte) (i : nat) : byte := nth i a x00.

(** [locate_array_diff]: the [for] loop with its early [return i] is the
    search for the first index of [range(length)] whose bytes differ. *)
Definition locate_array_diff (byte_array_1 byte_array_2 : list byte) : Z :=
  let len_1 := length byte_array_1 in
  let len_2 := length byte_array_2 in
  let length := Nat.min len_1 len_2 in
  match List.find
          (fun i => negb (Byte.eqb (byte_at byte_array_1 i)
                                   (byte_at byte_array_2 i)))
          (seq 0 length) with
  | Some i => Z.of_nat i
  | None => if negb (Nat.eqb len_1 len_2) then Z.of_nat length else -1
  end.

Module DictDiff.

(** [DictDiff], with [M] the type of the entries of [modified]. *)
Record t (M : Type) := mk {
  left_new : gset atom;
  right_new : gset atom;
  common_keys : gset atom;
  modified : gmap atom M;
  same : gset atom;
}.
Arguments mk {M} _ _ _ _ _.
Arguments left_new {M} _.
Arguments right_new {M} _.
Arguments common_keys {M} _.
Arguments modified {M} _.
Arguments same {M} _.

(** [has_changes]: the truth value of [left_new or right_new or modified]. *)
Definition has_changes {M : Type} (self : t M) : bool :=
  negb (bool_decide (left_new self = ∅))
  || negb (bool_decide (right_new self = ∅))
  || negb (bool_decide (dom (modified self) = ∅)).

(** [self.modified.pop(key, None)] *)
Definition pop_modified {M : Type} (self : t M) (key : atom) : t M :=
  mk (left_new self) (right_new self) (common_keys self)
     (delete key (modified self)) (same self).

End DictDiff.

(** What one iteration of the loop over [intersect_keys] does with its key. *)
Inductive outcome (M : Type) := Same | Modified (m : M) | Skipped.
Arguments Same {M}.
Arguments Modified {M} m.
Arguments Skipped {M}.

(** The body of [compare_dict].  [modified_value value_1 value_2] is the
    entry stored at lines 200-209 (a nested comparison or the pair).  The
    loop handles each common key on its own, so [outcomes] maps every key of
    [intersect_keys] to what its iteration did; [same] and [modified] are
    read off it. *)
Definition compare_dict_with {V M : Type} (modified_value : V -> V -> M)
    (d1 d2 : gmap atom V) (include_modified include_same : bool)
    (compare_function : V -> V -> bool) : DictDiff.t M :=
  let d1_keys := dom d1 in
  let d2_keys := dom d2 in
  let intersect_keys := d1_keys ∩ d2_keys in
  let d1_new := d1_keys ∖ d2_keys in
  let d2_new := d2_keys ∖ d1_keys in
  let outcomes : gmap atom (outcome M) :=
    merge (fun o1 o2 =>
      match o1, o2 with
      | Some value_1, Some value_2 =>
          Some (if compare_function value_1 value_2
                then (if include_same then Same else Skipped)
                else if include_modified
                     then Modified (modified_value value_1 value_2)
                     else Skipped)
      | _, _ => None
      end) d1 d2 in
  let same :=
    dom (omap (fun o => match o with Same => Some tt | _ => None end)
              outcomes) in
  let modified :=
    omap (fun o => match o with Modified m => Some m | _ => None end)
         outcomes in
  DictDiff.mk d1_new d2_new intersect_keys modified same.

(** An entry of [modified]: the tuple [(value_1, value_2)] or, under
    [deep], the [DictDiff] of two mappings. *)
Inductive diff_value :=
  | Pair (value_1 value_2 : value)
  | Nested (d : DictDiff.t diff_value).

(** Lines 200-209.  The recursive call passes [include_same] and [deep]
    on and leaves [include_modified] and [compare_function] at their
    defaults ([True], [operator.eq]). *)
Fixpoint modified_value (deep include_same : bool)
    (value_1 value_2 : value) {struct value_1} : diff_value :=
  match deep, value_1, value_2 with
  | true, Dict d1, Dict d2 =>
      Nested (compare_dict_with (modified_value deep include_same)
                d1 d2 true include_same operator_eq)
  | _, _, _ => Pair value_1 value_2
  end.

(** [compare_dict] on dictionaries of values. *)
Definition compare_dict (d1 d2 : gmap atom value)
    (deep include_modified include_same : bool)
    (compare_function : value -> value -> bool)
    : DictDiff.t diff_value :=
  compare_dict_with (modified_value deep include_same)
    d1 d2 include_modified include_same compare_function.

(** ** The parsed object file (pyelftools' [ELFFile], [Section], [Segment])

    The parser is outside the repository; what the code reads from it is a
    section's name, header fields, [is_null()] and [data()], a segment's
    header fields, the fields of the ELF header and the byte stream.
    Enumerated fields are a name or, when unknown to the parser, the raw
    integer: an [atom]. *)

Module Section.

Record t := mk {
  name : string;
  sh_name : Z;
  sh_type : atom;
  sh_flags : Z;
  sh_addr : Z;
  sh_offset : Z;
  sh_size : Z;
  sh_link : Z;
  sh_info : Z;
  sh_addralign : Z;
  sh_entsize : Z;
  is_null : bool;
  data : list byte;
}.

(** [section.header], the dictionary behind [section["..."]]. *)
Definition header (s : t) : gmap atom value :=
  list_to_map
    [ (Str "sh_name", Atom (Int (sh_name s)));
      (Str "sh_type", Atom (sh_type s));
      (Str "sh_flags", Atom (Int (sh_flags s)));
      (Str "sh_addr", Atom (Int (sh_addr s)));
      (Str "sh_offset", Atom (Int (sh_offset s)));
      (Str "sh_size", Atom (Int (sh_size s)));
      (Str "sh_link", Atom (Int (sh_link s)));
      (Str "sh_info", Atom (Int (sh_info s)));
      (Str "sh_addralign", Atom (Int (sh_addralign s)));
      (Str "sh_entsize", Atom (Int (sh_entsize s))) ].

(** [Section.__eq__] compares the headers. *)
Definition eq (s1 s2 : t) : bool := bool_decide (header s1 = header s2).

End Section.

Module Segment.

Record t := mk {
  p_type : atom;
  p_offset : Z;
  p_vaddr : Z;
  p_paddr : Z;
  p_filesz : Z;
  p_memsz : Z;
  p_flags : Z;
  p_align : Z;
}.

(** [segm.header] *)
Definition header (s : t) : gmap atom value :=
  list_to_map
    [ (Str "p_type", Atom (p_type s));
      (Str "p_offset", Atom (Int (p_offset s)));
      (Str "p_vaddr", Atom (Int (p_vaddr s)));
      (Str "p_paddr", Atom (Int (p_paddr s)));
      (Str "p_filesz", Atom (Int (p_filesz s)));
      (Str "p_memsz", Atom (Int (p_memsz s)));
      (Str "p_flags", Atom (Int (p_flags s)));
      (Str "p_align", Atom (Int (p_align s))) ].

End Segment.

Module ELFFile.

Record t := mk {
  stream : list byte;
  EI_MAG : list Z;
  EI_CLASS : atom;
  EI_DATA : atom;
  EI_VERSION : atom;
  EI_OSABI : atom;
  EI_ABIVERSION : Z;
  e_type : atom;
  e_machine : atom;
  e_version : atom;
  e_entry : Z;
  e_phoff : Z;
  e_shoff : Z;
  e_flags : Z;
  e_ehsize : Z;
  e_phentsize : Z;
  e_phnum : Z;
  e_shentsize : Z;
  e_shnum : Z;
  e_shstrndx : Z;
  iter_sections : list Section.t;
  iter_segments : list Segment.t;
}.

(** [self.header["e_ident"]] *)
Definition e_ident (self : t) : gmap atom value :=
  list_to_map
    [ (Str "EI_MAG", Ints (EI_MAG self));
      (Str "EI_CLASS", Atom (EI_CLASS self));
      (Str "EI_DATA", Atom (EI_DATA self));
      (Str "EI_VERSION", Atom (EI_VERSION self));
      (Str "EI_OSABI", Atom (EI_OSABI self));
      (Str "EI_ABIVERSION", Atom (Int (EI_ABIVERSION self))) ].

(** [self.header] *)
Definition header (self : t) : gmap atom value :=
  list_to_map
    [ (Str "e_ident", Dict (e_ident self));
      (Str "e_type", Atom (e_type self));
      (Str "e_machine", Atom (e_machine self));
      (Str "e_version", Atom (e_version self));
      (Str "e_entry", Atom (Int (e_entry self)));
      (Str "e_phoff", Atom (Int (e_phoff self)));
      (Str "e_shoff", Atom (Int (e_shoff self)));
      (Str "e_flags", Atom (Int (e_flags self)));
      (Str "e_ehsize", Atom (Int (e_ehsize self)));
      (Str "e_phentsize", Atom (Int (e_phentsize self)));
      (Str "e_phnum", Atom (Int (e_phnum self)));
      (Str "e_shentsize", Atom (Int (e_shentsize self)));
      (Str "e_shnum", Atom (Int (e_shnum self)));
      (Str "e_shstrndx", Atom (Int (e_shstrndx self))) ].

End ELFFile.

(** The largest value of the C types [off_t] and [Py_ssize_t] of a 64-bit
    CPython, and the length of the largest [bytes] object it makes. *)
Definition INT64_MAX : Z := 2 ^ 63 - 1.
Definition INT64_MIN : Z := - 2 ^ 63.
Definition max_bytes : Z := INT64_MAX - 33.

(** [stream.seek(offset)] followed by [stream.read(size)], for a binary
    file opened for reading ([open(path, "rb")], as the example and the
    tests open theirs) under a 64-bit CPython.

    [seek] raises [ValueError] for an offset that does not fit [off_t] and
    [OSError] for a negative one; it accepts a position past the end.
    [read] raises [OverflowError] for a size that does not fit [Py_ssize_t]
    or is larger than a [bytes] object can be, and [ValueError] for a
    negative size other than [-1]; [read(-1)] returns everything up to the
    end; otherwise [read] returns the bytes that are there, at most [size]
    of them.

    Below these limits the platform may still refuse a position the file
    system does not take or a size it has no memory for; that is not part
    of the model, and the statements about reads keep positions and sizes
    within the length of the file. *)
Definition seek_read (stream : list byte) (offset size : Z)
    : result (list byte) :=
  if (offset <? INT64_MIN) || (INT64_MAX <? offset) then Raise ValueError
  else if offset <? 0 then Raise OSError
  else if (size <? INT64_MIN) || (max_bytes <? size) then Raise OverflowError
  else if size <? -1 then Raise ValueError
  else
    let rest := drop (Z.to_nat offset) stream in
    Ok (if size =? -1 then rest else take (Z.to_nat size) rest).

(** ** structs.py *)

Module SectionDiff.

Record t := mk {
  headers : option (DictDiff.t diff_value);
  data_sizes : option (Z * Z);
  data_diff_offset : Z;
}.

Definition has_changes (self : t) : bool :=
  negb (bool_decide (headers self = None)
        && bool_decide (data_sizes self = None)
        && (data_diff_offset self =? -1)).

End SectionDiff.

Module AllSectionsDiff.

Record t := mk {
  left_new : gset atom;
  right_new : gset atom;
  modified : gmap atom SectionDiff.t;
}.

Definition has_changes (self : t) : bool :=
  negb (bool_decide (left_new self = ∅))
  || negb (bool_decide (right_new self = ∅))
  || negb (bool_decide (dom (modified self) = ∅)).

End AllSectionsDiff.

Module BlockType.

Inductive t :=
  | NOT_USED
  | ELF_HEADER
  | PROGRAM_HEADER_TABLE
  | SECTION_HEADER_TABLE
  | SECTION.

End BlockType.

Module Block.

(** What [object_] refers to: the header dictionary or a section. *)
Inductive object :=
  | OfHeader (header_raw : gmap atom value)
  | OfSection (section : Section.t).

Record t := mk {
  elf : ELFFile.t;
  block_type : BlockType.t;
  start_offset : Z;
  size : Z;
  object_ : option object;
}.

(** [Block(start_offset, size, block_type, elf, object_=None)] *)
Definition init (start_offset size : Z) (block_type : BlockType.t)
    (elf : ELFFile.t) (object_ : option object) : t :=
  mk elf block_type start_offset size object_.

Definition last_offset (self : t) : Z :=
  start_offset self + size self - 1.

Definition end_offset (self : t) : Z :=
  start_offset self + size self.

Definition data (self : t) : result (list byte) :=
  seek_read (ELFFile.stream (elf self)) (start_offset self) (size self).

End Block.

Module NotUsedBlockDiff.

Record t := mk {
  left_block : option Block.t;
  right_block : option Block.t;
  data_sizes : option (Z * Z);
  data_diff_offset : Z;
}.

(** [NotUsedBlockDiff()] *)
Definition init : t := mk None None None (-1).

Definition has_changes (self : t) : bool :=
  negb (bool_decide (data_sizes self = None))
  || negb (data_diff_offset self =? -1).

End NotUsedBlockDiff.

(** *** Objects that outlive a call

    [AllBlocksDiff.__init__] declares [diffs_in_not_used = []]: the default
    is one list object, made when the [def] is executed, and every
    [AllBlocksDiff()] stores a reference to it.  The heap holds its
    contents.  (The defaults of the two overlap lists are objects of the same
    kind, but the code only ever rebinds those attributes.) *)

Inductive list_ref := default_diffs_in_not_used.

Record heap := mk_heap {
  default_diffs : list NotUsedBlockDiff.t;
}.

(** The heap once the modules are imported. *)
Definition heap_at_import : heap := mk_heap [].

Definition deref (h : heap) (r : list_ref) : list NotUsedBlockDiff.t :=
  match r with
  | default_diffs_in_not_used => default_diffs h
  end.

(** Computations that read and write the heap and may raise; what was
    written before an exception stays written. *)
Definition M (A : Type) : Type := heap -> heap * result A.

Definition ret {A : Type} (a : A) : M A := fun h => (h, Ok a).

Definition bind {A B : Type} (m : M A) (k : A -> M B) : M B :=
  fun h =>
    match m h with
    | (h', Ok a) => k a h'
    | (h', Raise e) => (h', Raise e)
    end.

Definition lift {A : Type} (r : result A) : M A := fun h => (h, r).

Notation "'let!' x ':=' m 'in' k" := (bind m (fun x => k))
  (at level 10, x name, m at level 100, k at level 200).

(** [r.append(x)] *)
Definition append (r : list_ref) (x : NotUsedBlockDiff.t) : M unit :=
  fun h =>
    match r with
    | default_diffs_in_not_used => (mk_heap (default_diffs h ++ [x]), Ok tt)
    end.

Fixpoint for_each_M {A : Type} (body : A -> M unit) (l : list A) : M unit :=
  match l with
  | [] => ret tt
  | x :: l' => let! _ := body x in for_each_M body l'
  end.

Module AllBlocksDiff.

Record t := mk {
  left_overlaps_in_used : list (Block.t * Block.t);
  right_overlaps_in_used : list (Block.t * Block.t);
  counts_of_not_used : option (Z * Z);
  diffs_in_not_used : list_ref;
}.

(** [AllBlocksDiff()], every parameter at its default. *)
Definition init : t := mk [] [] None default_diffs_in_not_used.

Definition has_changes (h : heap) (self : t) : bool :=
  negb (bool_decide (left_overlaps_in_used self = []))
  || negb (bool_decide (right_overlaps_in_used self = []))
  || negb (bool_decide (counts_of_not_used self = None))
  || negb (bool_decide (deref h (diffs_in_not_used self) = [])).

End AllBlocksDiff.

(** ** elfcmp.py *)

Definition _group_segments (segments : list Segment.t)
    : gmap atom (gmap atom value) :=
  foldl (fun result segm =>
           let type_ := Segment.p_type segm in
           let offset := Int (Segment.p_offset segm) in
           match result !! type_ with
           | None =>
               <[type_ := {[offset := Dict (Segment.header segm)]}]> result
           | Some group =>
               <[type_ := <[offset := Dict (Segment.header segm)]> group]>
                 result
           end)
        ∅ segments.

Module ComparableElf.

(** The attributes [read_metadata] stores, next to the inherited parsed
    file.  [other] and [compare_result] are the argument and the result of
    [compare_to]. *)
Record t := mk {
  elf : ELFFile.t;
  header_raw : gmap atom value;
  sections : list Section.t;
  segments : list Segment.t;
  used_blocks : list Block.t;
  not_used_blocks : list Block.t;
}.

(** [file_size]: the position at the end of the stream. *)
Definition file_size (self : ELFFile.t) : Z := len (ELFFile.stream self).

(** The header without [e_ident], updated with the items of [e_ident]. *)
Definition make_header_raw (self : ELFFile.t) : gmap atom value :=
  ELFFile.e_ident self ∪ delete (Str "e_ident") (ELFFile.header self).

(** The test that skips dummy sections. *)
Definition is_dummy (section : Section.t) : bool :=
  (Section.sh_size section =? 0)
  || Section.is_null section
  || bool_decide (Section.sh_type section = Str "SHT_NOBITS")
  || bool_decide (Section.sh_type section = Str "SHT_NULL").

(** [_get_used_blocks], reading [self.header_raw] and [self.sections]. *)
Definition _get_used_blocks (self : ELFFile.t)
    (header_raw : gmap atom value) (sections : list Section.t)
    : list Block.t :=
  let result :=
    [ Block.init 0 (ELFFile.e_ehsize self) BlockType.ELF_HEADER self
        (Some (Block.OfHeader header_raw));
      Block.init (ELFFile.e_phoff self)
        (ELFFile.e_phentsize self * ELFFile.e_phnum self)
        BlockType.PROGRAM_HEADER_TABLE self None;
      Block.init (ELFFile.e_shoff self)
        (ELFFile.e_shentsize self * ELFFile.e_shnum self)
        BlockType.SECTION_HEADER_TABLE self None ] in
  let result :=
    result ++
    flat_map (fun section =>
                if is_dummy section then []
                else [ Block.init (Section.sh_offset section)
                         (Section.sh_size section) BlockType.SECTION self
                         (Some (Block.OfSection section)) ])
             sections in
  sort_by_key Block.start_offset result.

(** The unused block between [used_blocks[i]] and [used_blocks[i + 1]], if
    any: one iteration of the loop of [_get_not_used_blocks]. *)
Definition gap_after (self : ELFFile.t) (used_blocks : list Block.t)
    (i : nat) : list Block.t :=
  match used_blocks !! i, used_blocks !! S i with
  | Some cur_block, Some next_block =>
      if Block.end_offset cur_block >=? Block.start_offset next_block
      then []
      else [ Block.init (Block.end_offset cur_block)
               (Block.start_offset next_block - Block.end_offset cur_block)
               BlockType.NOT_USED self None ]
  | _, _ => []
  end.

(** [_get_not_used_blocks].  [used_blocks] is the attribute
    [self.used_blocks], [None] when it was not computed yet;
    [used_blocks[-1]] raises [IndexError] on an empty list. *)
Definition _get_not_used_blocks (self : ELFFile.t)
    (header_raw : gmap atom value) (sections : list Section.t)
    (used_blocks : option (list Block.t)) : result (list Block.t) :=
  let used_blocks :=
    match used_blocks with
    | None => _get_used_blocks self header_raw sections
    | Some used_blocks => used_blocks
    end in
  let result :=
    if 1 <? len used_blocks
    then flat_map (gap_after self used_blocks)
                  (seq 0 (length used_blocks - 1))
    else [] in
  match last used_blocks with
  | None => Raise IndexError
  | Some last_used_block =>
      let file_size := file_size self in
      let result :=
        if Block.end_offset last_used_block <? file_size
        then result ++
             [ Block.init (Block.end_offset last_used_block)
                 (file_size - Block.end_offset last_used_block)
                 BlockType.NOT_USED self None ]
        else result in
      Ok (sort_by_key Block.start_offset result)
  end.

(** [read_metadata], and with it [__init__]. *)
Definition read_metadata (self : ELFFile.t) : result t :=
  let header_raw := make_header_raw self in
  let sections := ELFFile.iter_sections self in
  let segments := ELFFile.iter_segments self in
  let used_blocks := _get_used_blocks self header_raw sections in
  let? not_used_blocks :=
    _get_not_used_blocks self header_raw sections (Some used_blocks) in
  Ok (mk self header_raw sections segments used_blocks not_used_blocks).

Definition _compare_segments (self other : t) : DictDiff.t diff_value :=
  let left_segments := _group_segments (segments self) in
  let right_segments := _group_segments (segments other) in
  compare_dict (Dict <$> left_segments) (Dict <$> right_segments)
    true true false operator_eq.

(** [{s.name : s for s in sections}]: a later section of the same name
    replaces an earlier one. *)
Definition sections_dict (sections : list Section.t)
    : gmap atom Section.t :=
  foldl (fun d s => <[Str (Section.name s) := s]> d) ∅ sections.

(** The body of the loop of [_compare_sections]. *)
Definition compare_section (sections_dict_1 sections_dict_2
      : gmap atom Section.t)
    (modified_sections : gmap atom SectionDiff.t) (section_name : atom)
    : result (gmap atom SectionDiff.t) :=
  let? section_1 := getitem sections_dict_1 section_name in
  let? section_2 := getitem sections_dict_2 section_name in
  let header_1 := Section.header section_1 in
  let header_2 := Section.header section_2 in
  let compared_headers :=
    compare_dict header_1 header_2 false true false operator_eq in
  let compared_headers :=
    DictDiff.pop_modified compared_headers (Str "sh_name") in
  let data_1 := Section.data section_1 in
  let data_2 := Section.data section_2 in
  let len_1 := len data_1 in
  let len_2 := len data_2 in
  let diff_index := locate_array_diff data_1 data_2 in
  let compared_section :=
    SectionDiff.mk
      (if DictDiff.has_changes compared_headers
       then Some compared_headers else None)
      (if negb (len_1 =? len_2) then Some (len_1, len_2) else None)
      diff_index in
  Ok (if SectionDiff.has_changes compared_section
      then <[section_name := compared_section]> modified_sections
      else modified_sections).

(** [_compare_sections].  The first [compare_dict] is on dictionaries of
    sections, which are no mappings: an entry of its [modified] would be
    the pair. *)
Definition _compare_sections (self other : t) : result AllSectionsDiff.t :=
  let sections_dict_1 := sections_dict (sections self) in
  let sections_dict_2 := sections_dict (sections other) in
  let compared_section_names :=
    compare_dict_with (fun s1 s2 : Section.t => (s1, s2))
      sections_dict_1 sections_dict_2 false true Section.eq in
  let common_section_names :=
    DictDiff.common_keys compared_section_names in
  let? modified_sections :=
    for_each (compare_section sections_dict_1 sections_dict_2)
      (elements common_section_names) ∅ in
  Ok (AllSectionsDiff.mk
        (DictDiff.left_new compared_section_names)
        (DictDiff.right_new compared_section_names)
        modified_sections).

(** One iteration of the loop of [_check_overlapped_blocks]. *)
Definition overlap_at (used_blocks : list Block.t) (i : nat)
    : list (Block.t * Block.t) :=
  match used_blocks !! i, used_blocks !! S i with
  | Some cur_block, Some next_block =>
      if Block.last_offset cur_block >? Block.start_offset next_block
      then [(cur_block, next_block)]
      else []
  | _, _ => []
  end.

Definition _check_overlapped_blocks (used_blocks : list Block.t)
    : list (Block.t * Block.t) :=
  flat_map (overlap_at used_blocks) (seq 0 (length used_blocks - 1)).

(** The body of the loop of [_compare_blocks] over the zipped blocks. *)
Definition compare_not_used (result : AllBlocksDiff.t)
    (blocks : Block.t * Block.t) : M unit :=
  let block_1 := blocks.1 in
  let block_2 := blocks.2 in
  let block_diff := NotUsedBlockDiff.init in
  let data_sizes :=
    if negb (Block.size block_1 =? Block.size block_2)
    then Some (Block.size block_1, Block.size block_2)
    else NotUsedBlockDiff.data_sizes block_diff in
  let! data_1 := lift (Block.data block_1) in
  let! data_2 := lift (Block.data block_2) in
  let data_diff_offset := locate_array_diff data_1 data_2 in
  let block_diff :=
    NotUsedBlockDiff.mk
      (NotUsedBlockDiff.left_block block_diff)
      (NotUsedBlockDiff.right_block block_diff)
      data_sizes data_diff_offset in
  if NotUsedBlockDiff.has_changes block_diff
  then append (AllBlocksDiff.diffs_in_not_used result)
         (NotUsedBlockDiff.mk (Some block_1) (Some block_2)
            data_sizes data_diff_offset)
  else ret tt.

Definition _compare_blocks (self other : t) : M AllBlocksDiff.t :=
  let result := AllBlocksDiff.init in
  let not_used_blocks_counts :=
    (len (not_used_blocks self), len (not_used_blocks other)) in
  let! counts_of_not_used :=
    if not_used_blocks_counts.1 =? not_used_blocks_counts.2
    then
      let! _ :=
        for_each_M (compare_not_used result)
          (zip (not_used_blocks self) (not_used_blocks other)) in
      ret (AllBlocksDiff.counts_of_not_used result)
    else ret (Some not_used_blocks_counts) in
  let left_overlaps_in_used :=
    _check_overlapped_blocks (not_used_blocks self) in
  let right_overlaps_in_used :=
    _check_overlapped_blocks (not_used_blocks other) in
  ret (AllBlocksDiff.mk left_overlaps_in_used right_overlaps_in_used
         counts_of_not_used (AllBlocksDiff.diffs_in_not_used result)).

End ComparableElf.

Module ElfDiff.

Record t := mk {
  left_elf : ComparableElf.t;
  right_elf : ComparableElf.t;
  compared_elf_headers : DictDiff.t diff_value;
  compared_segments : DictDiff.t diff_value;
  compared_sections : AllSectionsDiff.t;
  compared_blocks : AllBlocksDiff.t;
}.

Definition has_changes (h : heap) (self : t) : bool :=
  DictDiff.has_changes (compared_elf_headers self)
  || DictDiff.has_changes (compared_segments self)
  || AllSectionsDiff.has_changes (compared_sections self)
  || AllBlocksDiff.has_changes h (compared_blocks self).

(** What a caller who walks the report finds in its list of differing
    not-used blocks. *)
Definition diffs_in_not_used (h : heap) (self : t)
    : list NotUsedBlockDiff.t :=
  deref h (AllBlocksDiff.diffs_in_not_used (compared_blocks self)).

End ElfDiff.

(** [ComparableElf.compare_to] *)
Definition compare_to (self other : ComparableElf.t) : M ElfDiff.t :=
  let compared_elf_headers :=
    compare_dict (ComparableElf.header_raw self)
      (ComparableElf.header_raw other) false true false operator_eq in
  let compared_segments := ComparableElf._compare_segments self other in
  let! compared_sections :=
    lift (ComparableElf._compare_sections self other) in
  let! compared_blocks := ComparableElf._compare_blocks self other in
  ret (ElfDiff.mk self other compared_elf_headers compared_segments
         compared_sections compared_blocks).

(** ** Rendering: [to_string] and the [__str__] methods

    [str] and [format] are Python's; the methods only need them as
    functions.  [str_overlaps] renders a list of pairs of blocks (with the
    default [repr] of the blocks), [str_counts] a pair of counts. *)

Record builtins := mk_builtins {
  str_set : gset atom -> string;
  str_atom : atom -> string;
  str_value : value -> string;
  format_int : Z -> string -> string;
  str_counts : Z * Z -> string;
  str_overlaps : list (Block.t * Block.t) -> string;
}.

(** The characters ["\n"] and ["\t"]. *)
Definition LF : string := String (Ascii.ascii_of_nat 10) "".
Definition TAB : string := String (Ascii.ascii_of_nat 9) "".

(** [sep.join(l)] *)
Fixpoint join (sep : string) (l : list string) : string :=
  match l with
  | [] => ""
  | [x] => x
  | x :: r => x +:+ sep +:+ join sep r
  end.

(** The truth value of a string. *)
Definition nonempty (s : string) : bool :=
  match s with
  | EmptyString => false
  | String _ _ => true
  end.

(** [numbers_format] of [structs.py], and the default of the parameter of
    the same name of [to_string]. *)
Definition numbers_format : string := "02X".

(** The default of [sub_headers]; the code reads its first three items. *)
Definition default_sub_headers : string * string * string :=
  ("Left new:", "Right new:", "Modified:").

(** [format(v, numbers_format) if is_integer(v) else str(v)] *)
Definition format_value (py : builtins) (numbers_format : string)
    (v : value) : string :=
  match v with
  | Atom (Int n) => format_int py n numbers_format
  | _ => str_value py v
  end.

(** The body of [DictDiff.to_string].  [entry] renders a value of
    [modified] as the separator and the second item of [mod_res].  The keys
    of [modified] are visited in the order of [map_to_list]. *)
Definition to_string_with {M : Type} (py : builtins)
    (entry : M -> string * string) (self : DictDiff.t M)
    (indent header : string) (sub_headers : string * string * string)
    : string :=
  let result := [] in
  let result :=
    if DictDiff.has_changes self && nonempty header
    then result ++ [header] else result in
  let result :=
    if negb (bool_decide (DictDiff.left_new self = ∅))
    then result ++ [sub_headers.1.1 +:+ str_set py (DictDiff.left_new self)]
    else result in
  let result :=
    if negb (bool_decide (DictDiff.right_new self = ∅))
    then result ++ [sub_headers.1.2 +:+ str_set py (DictDiff.right_new self)]
    else result in
  let result :=
    result ++
    map (fun item : atom * (string * string) =>
           let mod_res :=
             [sub_headers.2 +:+ str_atom py item.1 +:+ ": "; item.2.2] in
           join item.2.1 mod_res)
        (map_to_list (entry <$> DictDiff.modified self)) in
  let result_str := match result with [] => "" | _ => indent end in
  result_str +:+ join (LF +:+ indent) result.

(** How a value of [modified] is rendered by [to_string] called with
    [indent] and [numbers_format]: a pair on the same line, a nested diff on
    the next lines with one more tab, the other parameters at their
    defaults. *)
Fixpoint entry_to_string (py : builtins) (numbers_format indent : string)
    (mod_value : diff_value) {struct mod_value} : string * string :=
  match mod_value with
  | Pair v1 v2 =>
      ("", format_value py numbers_format v1 +:+ ","
           +:+ format_value py numbers_format v2)
  | Nested d =>
      (LF,
       to_string_with py (entry_to_string py "02X" (indent +:+ TAB)) d
         (indent +:+ TAB) "" default_sub_headers)
  end.

(** [DictDiff.to_string] *)
Definition to_string (py : builtins) (self : DictDiff.t diff_value)
    (indent numbers_format header : string)
    (sub_headers : string * string * string) : string :=
  to_string_with py (entry_to_string py numbers_format indent) self indent
    header sub_headers.

(** [DictDiff.__str__] *)
Definition DictDiff_str (py : builtins) (self : DictDiff.t diff_value)
    : string :=
  to_string py self "" "02X" "" default_sub_headers.

(** [SectionDiff.__str__] *)
Definition SectionDiff_str (py : builtins) (self : SectionDiff.t) : string :=
  let indent := TAB +:+ TAB in
  let inner_indent := TAB +:+ TAB +:+ TAB in
  let result := [] in
  let result :=
    match SectionDiff.headers self with
    | Some headers =>
        result ++ ["Headers:" +:+ LF
                   +:+ to_string py headers inner_indent "02X" ""
                         default_sub_headers
                   +:+ "."]
    | None => result
    end in
  let result :=
    match SectionDiff.data_sizes self with
    | Some data_sizes =>
        result ++ ["Data sizes: "
                   +:+ format_int py data_sizes.1 numbers_format +:+ ","
                   +:+ format_int py data_sizes.2 numbers_format]
    | None => result
    end in
  let result :=
    if negb (SectionDiff.data_diff_offset self =? -1)
    then result ++ ["First data diff at: "
                    +:+ format_int py (SectionDiff.data_diff_offset self)
                          numbers_format]
    else result in
  let result_str := match result with [] => "" | _ => indent end in
  result_str +:+ join (LF +:+ indent) result.

(** [AllSectionsDiff.__str__] *)
Definition AllSectionsDiff_str (py : builtins) (self : AllSectionsDiff.t)
    : string :=
  let indent := TAB in
  let result := [] in
  if negb (AllSectionsDiff.has_changes self) then ""
  else
    let result :=
      if negb (bool_decide (AllSectionsDiff.left_new self = ∅))
      then result ++ ["Left new sections: "
                      +:+ str_set py (AllSectionsDiff.left_new self)]
      else result in
    let result :=
      if negb (bool_decide (AllSectionsDiff.right_new self = ∅))
      then result ++ ["Right new sections: "
                      +:+ str_set py (AllSectionsDiff.right_new self)]
      else result in
    let result :=
      result ++
      map (fun item : atom * SectionDiff.t =>
             "Section " +:+ str_atom py item.1 +:+ ":" +:+ LF
             +:+ SectionDiff_str py item.2)
          (map_to_list (AllSectionsDiff.modified self)) in
    let result_str := match result with [] => "" | _ => indent end in
    result_str +:+ join (LF +:+ indent) result.

(** [NotUsedBlockDiff.__str__]; [indent] is the class attribute
    [NotUsedBlockDiff.indent] at the time of the call. *)
Definition NotUsedBlockDiff_str (py : builtins) (indent : string)
    (self : NotUsedBlockDiff.t) : string :=
  let result := [] in
  if negb (NotUsedBlockDiff.has_changes self) then ""
  else
    let result :=
      match NotUsedBlockDiff.data_sizes self with
      | Some data_sizes =>
          result ++ ["Data sizes: "
                     +:+ format_int py data_sizes.1 numbers_format +:+ ","
                     +:+ format_int py data_sizes.2 numbers_format]
      | None => result
      end in
    let result :=
      if negb (NotUsedBlockDiff.data_diff_offset self =? -1)
      then result ++ ["First data diff at: "
                      +:+ format_int py
                            (NotUsedBlockDiff.data_diff_offset self)
                            numbers_format]
      else result in
    let result_str := match result with [] => "" | _ => indent end in
    result_str +:+ join (LF +:+ indent) result.

(** The class attributes [NotUsedBlockDiff.indent] and
    [AllBlocksDiff.indent]. *)
Record indents := mk_indents {
  NotUsedBlockDiff_indent : string;
  AllBlocksDiff_indent : string;
}.

(** [AllBlocksDiff.__str__]: the text, and the class attributes when it
    returns.  While the differing blocks are rendered,
    [NotUsedBlockDiff.indent] is [AllBlocksDiff.indent + "\t"]. *)
Definition AllBlocksDiff_str (py : builtins) (h : heap) (attrs : indents)
    (self : AllBlocksDiff.t) : string * indents :=
  let result := [] in
  if negb (AllBlocksDiff.has_changes h self) then ("", attrs)
  else
    let result :=
      if negb (bool_decide (AllBlocksDiff.left_overlaps_in_used self = []))
      then result ++ ["Left overlaps: "
                      +:+ str_overlaps py
                            (AllBlocksDiff.left_overlaps_in_used self)]
      else result in
    let result :=
      if negb (bool_decide (AllBlocksDiff.right_overlaps_in_used self = []))
      then result ++ ["Right overlaps: "
                      +:+ str_overlaps py
                            (AllBlocksDiff.right_overlaps_in_used self)]
      else result in
    let result :=
      match AllBlocksDiff.counts_of_not_used self with
      | Some counts =>
          result ++ ["Counts of not used blocks: " +:+ str_counts py counts]
      | None => result
      end in
    let diffs := deref h (AllBlocksDiff.diffs_in_not_used self) in
    let '(result, attrs) :=
      match diffs with
      | [] => (result, attrs)
      | _ =>
          let result := result ++ ["Different not used blocks:"] in
          let saved_indent := NotUsedBlockDiff_indent attrs in
          let attrs :=
            mk_indents (AllBlocksDiff_indent attrs +:+ TAB)
              (AllBlocksDiff_indent attrs) in
          let sub_result :=
            map (NotUsedBlockDiff_str py (NotUsedBlockDiff_indent attrs))
                diffs in
          let attrs := mk_indents saved_indent (AllBlocksDiff_indent attrs) in
          (result ++ [join LF sub_result], attrs)
      end in
    let result_str :=
      match result with [] => "" | _ => AllBlocksDiff_indent attrs end in
    (result_str +:+ join LF result, attrs).

(** [ElfDiff.__str__] *)
Definition ElfDiff_str (py : builtins) (h : heap) (attrs : indents)
    (self : ElfDiff.t) : string * indents :=
  let result := [] in
  if negb (ElfDiff.has_changes h self) then ("", attrs)
  else
    let result :=
      if DictDiff.has_changes (ElfDiff.compared_elf_headers self)
      then result ++ ["ELF headers start" +:+ LF
                      +:+ DictDiff_str py (ElfDiff.compared_elf_headers self)
                      +:+ LF +:+ "ELF headers end" +:+ LF]
      else result in
    let result :=
      if DictDiff.has_changes (ElfDiff.compared_segments self)
      then result ++ ["Segments start" +:+ LF
                      +:+ DictDiff_str py (ElfDiff.compared_segments self)
                      +:+ LF +:+ "Segments end" +:+ LF]
      else result in
    let result :=
      if AllSectionsDiff.has_changes (ElfDiff.compared_sections self)
      then result ++ ["Sections start" +:+ LF
                      +:+ AllSectionsDiff_str py
                            (ElfDiff.compared_sections self)
                      +:+ LF +:+ "Sections end" +:+ LF]
      else result in
    let '(result, attrs) :=
      if AllBlocksDiff.has_changes h (ElfDiff.compared_blocks self)
      then
        let '(text, attrs) :=
          AllBlocksDiff_str py h attrs (ElfDiff.compared_blocks self) in
        (result ++ ["Blocks start" +:+ LF +:+ text +:+ LF
                    +:+ "Blocks end" +:+ LF],
         attrs)
      else (result, attrs) in
    (join LF result, attrs).

(** ** Vocabulary of the statements *)

(** The [Gap] block spanning [[from, to)] of a file. *)
Definition gap (self : ELFFile.t) (from to : Z) : Block.t :=
  Block.init from (to - from) BlockType.NOT_USED self None.

(** The three table blocks of a file. *)
Definition header_block (self : ELFFile.t) : Block.t :=
  Block.init 0 (ELFFile.e_ehsize self) BlockType.ELF_HEADER self
    (Some (Block.OfHeader (ComparableElf.make_header_raw self))).

Definition program_header_table_block (self : ELFFile.t) : Block.t :=
  Block.init (ELFFile.e_phoff self)
    (ELFFile.e_phentsize self * ELFFile.e_phnum self)
    BlockType.PROGRAM_HEADER_TABLE self None.

Definition section_header_table_block (self : ELFFile.t) : Block.t :=
  Block.init (ELFFile.e_shoff self)
    (ELFFile.e_shentsize self * ELFFile.e_shnum self)
    BlockType.SECTION_HEADER_TABLE self None.

(** The block of a section that is not skipped. *)
Definition section_block (self : ELFFile.t) (section : Section.t) : Block.t :=
  Block.init (Section.sh_offset section) (Section.sh_size section)
    BlockType.SECTION self (Some (Block.OfSection section)).

(** [g1] ends where [g2] starts, or earlier. *)
Definition before (g1 g2 : Block.t) : Prop :=
  Block.end_offset g1 <= Block.start_offset g2.

(** The sizes a parser reads are unsigned. *)
Definition nonneg_sizes (self : ELFFile.t) : Prop :=
  0 <= ELFFile.e_ehsize self
  /\ 0 <= ELFFile.e_phentsize self * ELFFile.e_phnum self
  /\ 0 <= ELFFile.e_shentsize self * ELFFile.e_shnum self
  /\ Forall (fun s => 0 <= Section.sh_size s) (ELFFile.iter_sections self).

(** Byte offset [x] lies in block [b]. *)
Definition covers (b : Block.t) (x : Z) : Prop :=
  Block.start_offset b <= x < Block.end_offset b.

(** The offsets a parser reads are unsigned. *)
Definition nonneg_offsets (self : ELFFile.t) : Prop :=
  0 <= ELFFile.e_phoff self
  /\ 0 <= ELFFile.e_shoff self
  /\ Forall (fun s => 0 <= Section.sh_offset s) (ELFFile.iter_sections self).

(** The block lies within its file, and the file is one a [bytes] object
    can hold. *)
Definition in_file (b : Block.t) : Prop :=
  0 <= Block.start_offset b
  /\ 0 <= Block.size b
  /\ Block.end_offset b <= ComparableElf.file_size (Block.elf b)
  /\ ComparableElf.file_size (Block.elf b) <= max_bytes.

(** The file is one a [bytes] object can hold, and its tables and its
    sections that are not skipped start within it. *)
Definition offsets_in_file (self : ELFFile.t) : Prop :=
  ComparableElf.file_size self <= max_bytes
  /\ ELFFile.e_phoff self <= ComparableElf.file_size self
  /\ ELFFile.e_shoff self <= ComparableElf.file_size self
  /\ Forall (fun s => ComparableElf.is_dummy s = false ->
                      Section.sh_offset s <= ComparableElf.file_size self)
       (ELFFile.iter_sections self).

(** [m] only appends to the shared list, and neither what it appends nor
    what it returns depends on what the list held before. *)
Definition appends_only {A : Type} (m : M A) : Prop :=
  forall h,
    m h = (mk_heap (default_diffs h ++ default_diffs (m heap_at_import).1),
           (m heap_at_import).2).

(** The entry appended for two not-used blocks with data [x1] and [x2]. *)
Definition not_used_diff (b1 b2 : Block.t) (x1 x2 : list byte)
    : NotUsedBlockDiff.t :=
  NotUsedBlockDiff.mk (Some b1) (Some b2)
    (if Block.size b1 =? Block.size b2 then None
     else Some (Block.size b1, Block.size b2))
    (locate_array_diff x1 x2).

(** The header diff of two sections of the same name: unchanged fields
    left out, the field [sh_name] removed afterwards. *)
Definition header_diff (section_1 section_2 : Section.t)
    : DictDiff.t diff_value :=
  DictDiff.pop_modified
    (compare_dict (Section.header section_1) (Section.header section_2)
       false true false operator_eq)
    (Str "sh_name").

(** The [SectionDiff] built for two sections of the same name. *)
Definition section_diff (section_1 section_2 : Section.t) : SectionDiff.t :=
  SectionDiff.mk
    (if DictDiff.has_changes (header_diff section_1 section_2)
     then Some (header_diff section_1 section_2) else None)
    (if negb (len (Section.data section_1) =? len (Section.data section_2))
     then Some (len (Section.data section_1), len (Section.data section_2))
     else None)
    (locate_array_diff (Section.data section_1) (Section.data section_2)).

(** The last section of the list with the given name. *)
Definition last_named (name : string) (sections : list Section.t)
    : option Section.t :=
  last (filter (fun s => Section.name s = name) sections).

(** Two ELF headers agree in every field, identification included. *)
Definition same_elf_header (f1 f2 : ELFFile.t) : Prop :=
  ELFFile.EI_MAG f1 = ELFFile.EI_MAG f2
  /\ ELFFile.EI_CLASS f1 = ELFFile.EI_CLASS f2
  /\ ELFFile.EI_DATA f1 = ELFFile.EI_DATA f2
  /\ ELFFile.EI_VERSION f1 = ELFFile.EI_VERSION f2
  /\ ELFFile.EI_OSABI f1 = ELFFile.EI_OSABI f2
  /\ ELFFile.EI_ABIVERSION f1 = ELFFile.EI_ABIVERSION f2
  /\ ELFFile.e_type f1 = ELFFile.e_type f2
  /\ ELFFile.e_machine f1 = ELFFile.e_machine f2
  /\ ELFFile.e_version f1 = ELFFile.e_version f2
  /\ ELFFile.e_entry f1 = ELFFile.e_entry f2
  /\ ELFFile.e_phoff f1 = ELFFile.e_phoff f2
  /\ ELFFile.e_shoff f1 = ELFFile.e_shoff f2
  /\ ELFFile.e_flags f1 = ELFFile.e_flags f2
  /\ ELFFile.e_ehsize f1 = ELFFile.e_ehsize f2
  /\ ELFFile.e_phentsize f1 = ELFFile.e_phentsize f2
  /\ ELFFile.e_phnum f1 = ELFFile.e_phnum f2
  /\ ELFFile.e_shentsize f1 = ELFFile.e_shentsize f2
  /\ ELFFile.e_shnum f1 = ELFFile.e_shnum f2
  /\ ELFFile.e_shstrndx f1 = ELFFile.e_shstrndx f2.

(** Two section headers agree in every field but [sh_name]. *)
Definition same_header_but_name (s1 s2 : Section.t) : Prop :=
  Section.sh_type s1 = Section.sh_type s2
  /\ Section.sh_flags s1 = Section.sh_flags s2
  /\ Section.sh_addr s1 = Section.sh_addr s2
  /\ Section.sh_offset s1 = Section.sh_offset s2
  /\ Section.sh_size s1 = Section.sh_size s2
  /\ Section.sh_link s1 = Section.sh_link s2
  /\ Section.sh_info s1 = Section.sh_info s2
  /\ Section.sh_addralign s1 = Section.sh_addralign s2
  /\ Section.sh_entsize s1 = Section.sh_entsize s2.

(** The three ways in which two sections of the same name differ. *)
Definition section_modified (section_1 section_2 : Section.t) : Prop :=
  DictDiff.has_changes (header_diff section_1 section_2) = true
  \/ len (Section.data section_1) <> len (Section.data section_2)
  \/ locate_array_diff (Section.data section_1) (Section.data section_2)
     <> -1.

(** The list of differing not-used blocks that a caller reads in the report
    of a finished [compare_to]. *)
Definition reported_diffs (out : heap * result ElfDiff.t)
    : result (list NotUsedBlockDiff.t) :=
  match out with
  | (h, Ok report) => Ok (ElfDiff.diffs_in_not_used h report)
  | (_, Raise e) => Raise e
  end.

(** The two overlap lists that a caller reads in the report of a finished
    [compare_to]. *)
Definition reported_overlaps (out : heap * result ElfDiff.t)
    : result (list (Block.t * Block.t) * list (Block.t * Block.t)) :=
  match out with
  | (_, Ok report) =>
      Ok (AllBlocksDiff.left_overlaps_in_used
            (ElfDiff.compared_blocks report),
          AllBlocksDiff.right_overlaps_in_used
            (ElfDiff.compared_blocks report))
  | (_, Raise e) => Raise e
  end.

(** ** Files used as examples *)

(** A 64-bit little-endian executable with the given stream, table
    geometry, sections and segments. *)
Definition example_file (stream : list byte)
    (e_ehsize e_phoff e_phentsize e_phnum e_shoff e_shentsize e_shnum : Z)
    (sections : list Section.t) (segments : list Segment.t) : ELFFile.t :=
  ELFFile.mk stream [127; 69; 76; 70] (Str "ELFCLASS64") (Str "ELFDATA2LSB")
    (Str "EV_CURRENT") (Str "ELFOSABI_SYSV") 0 (Str "ET_EXEC")
    (Str "EM_X86_64") (Str "EV_CURRENT") 0 e_phoff e_shoff 0 e_ehsize
    e_phentsize e_phnum e_shentsize e_shnum 0 sections segments.

(** A [SHT_PROGBITS] section. *)
Definition example_section (name : string) (sh_offset sh_size : Z)
    (data : list byte) : Section.t :=
  Section.mk name 0 (Str "SHT_PROGBITS") 0 0 sh_offset sh_size 0 0 1 0
    false data.

(** The header and the two tables laid out back to back in a file of 200
    bytes, all zero: header [[0,64)], program-header table [[64,120)],
    section-header table [[120,184)], no section. *)
Definition tables_file : ELFFile.t :=
  example_file (repeat x00 200) 64 64 56 1 120 64 1 [] [].

(** The same layout with a last byte that differs. *)
Definition tables_file' : ELFFile.t :=
  example_file (repeat x00 199 ++ [x01]) 64 64 56 1 120 64 1 [] [].

(** A file of 300 bytes whose header declares [e_ehsize = 10] and whose
    section [.text] sits at [[5,15)], inside the header; program-header
    table [[64,120)], section-header table [[128,256)]. *)
Definition overlap_text : Section.t :=
  example_section ".text" 5 10 (repeat x00 10).

Definition overlap_file : ELFFile.t :=
  example_file (repeat x00 300) 10 64 56 1 128 64 2
    [ Section.mk "" 0 (Str "SHT_NULL") 0 0 0 0 0 0 0 0 true [];
      overlap_text ] [].

(** The objects that [ComparableElf(stream)] builds for these files. *)
Definition tables_elf : ComparableElf.t :=
  ComparableElf.mk tables_file (ComparableElf.make_header_raw tables_file)
    [] []
    [ header_block tables_file; program_header_table_block tables_file;
      section_header_table_block tables_file ]
    [ gap tables_file 184 200 ].

Definition tables_elf' : ComparableElf.t :=
  ComparableElf.mk tables_file' (ComparableElf.make_header_raw tables_file')
    [] []
    [ header_block tables_file'; program_header_table_block tables_file';
      section_header_table_block tables_file' ]
    [ gap tables_file' 184 200 ].

Definition overlap_elf : ComparableElf.t :=
  ComparableElf.mk overlap_file (ComparableElf.make_header_raw overlap_file)
    (ELFFile.iter_sections overlap_file) []
    [ header_block overlap_file; section_block overlap_file overlap_text;
      program_header_table_block overlap_file;
      section_header_table_block overlap_file ]
    [ gap overlap_file 15 64; gap overlap_file 120 128;
      gap overlap_file 256 300 ].

(** The difference between the gaps of [tables_file] and [tables_file']:
    same size, first differing byte at index 15 of the gap. *)
Definition tables_diff : NotUsedBlockDiff.t :=
  NotUsedBlockDiff.mk (Some (gap tables_file 184 200))
    (Some (gap tables_file' 184 200)) None 15.

(** The scenario of two files with sections [.text] and [.data], the second
    with a [.data] that differs in byte 3 and a further section [.new]. *)
Definition text_section : Section.t :=
  example_section ".text" 64 4 [x90; x90; x90; xc3].

Definition data_section : Section.t :=
  example_section ".data" 68 4 [x01; x02; x03; x04].

Definition data_section' : Section.t :=
  example_section ".data" 68 4 [x01; x02; x03; x05].

Definition new_section : Section.t :=
  example_section ".new" 72 2 [x0a; x0b].

Definition sections_file : ELFFile.t :=
  example_file
    (repeat x00 64 ++ [x90; x90; x90; xc3; x01; x02; x03; x04]
     ++ repeat x00 128)
    64 64 0 0 72 64 2 [text_section; data_section] [].

Definition sections_file' : ELFFile.t :=
  example_file
    (repeat x00 64 ++ [x90; x90; x90; xc3; x01; x02; x03; x05; x0a; x0b]
     ++ repeat x00 192)
    64 64 0 0 74 64 3 [text_section; data_section'; new_section] [].

Definition sections_elf : ComparableElf.t :=
  ComparableElf.mk sections_file
    (ComparableElf.make_header_raw sections_file)
    [text_section; data_section] []
    [ header_block sections_file; program_header_table_block sections_file;
      section_block sections_file text_section;
      section_block sections_file data_section;
      section_header_table_block sections_file ]
    [].

Definition sections_elf' : ComparableElf.t :=
  ComparableElf.mk sections_file'
    (ComparableElf.make_header_raw sections_file')
    [text_section; data_section'; new_section] []
    [ header_block sections_file'; program_header_table_block sections_file';
      section_block sections_file' text_section;
      section_block sections_file' data_section';
      section_block sections_file' new_section;
      section_header_table_block sections_file' ]
    [].

(** Two files that differ in the size of their one [PT_LOAD] segment. *)
Definition load_segment (p_offset p_filesz : Z) : Segment.t :=
  Segment.mk (Str "PT_LOAD") p_offset 4194304 4194304 p_filesz p_filesz 5
    4096.

Definition segments_file : ELFFile.t :=
  example_file (repeat x00 200) 64 64 56 1 120 64 1 [] [load_segment 0 200].

Definition segments_file' : ELFFile.t :=
  example_file (repeat x00 200) 64 64 56 1 120 64 1 [] [load_segment 0 184].

Definition segments_elf : ComparableElf.t :=
  ComparableElf.mk segments_file
    (ComparableElf.make_header_raw segments_file) [] [load_segment 0 200]
    [ header_block segments_file; program_header_table_block segments_file;
      section_header_table_block segments_file ]
    [ gap segments_file 184 200 ].

Definition segments_elf' : ComparableElf.t :=
  ComparableElf.mk segments_file'
    (ComparableElf.make_header_raw segments_file') [] [load_segment 0 184]
    [ header_block segments_file'; program_header_table_block segments_file';
      section_header_table_block segments_file' ]
    [ gap segments_file' 184 200 ].

(** * Properties *)

(** ** Searching a range *)

Section find_range.

Variable p : nat -> bool.

Lemma find_seq_Some (s n i : nat) :
  List.find p (seq s n) = Some i ->
  (s <= i < s + n)%nat /\ p i = true /\
  forall j, (s <= j < i)%nat -> p j = false.
Proof.
  revert s. induction n as [|n IH]; intros s; simpl; [discriminate|].
  destruct (p s) eqn:Hs.
  - intros [= <-]. repeat split; [lia..|done|intros; lia].
  - intros H. apply IH in H as (Hi & Hp & Hj).
    repeat split; [lia..|done|].
    intros j Hjs. destruct (decide (j = s)) as [->|]; [done|].
    apply Hj. lia.
Qed.

Lemma find_seq_None (s n : nat) :
  List.find p (seq s n) = None ->
  forall j, (s <= j < s + n)%nat -> p j = false.
Proof.
  revert s. induction n as [|n IH]; intros s; simpl; [intros; lia|].
  destruct (p s) eqn:Hs; [discriminate|].
  intros H j Hj. destruct (decide (j = s)) as [->|]; [done|].
  apply (IH _ H). lia.
Qed.

Lemma find_seq_first (s n i : nat) :
  (s <= i < s + n)%nat -> p i = true ->
  (forall j, (s <= j < i)%nat -> p j = false) ->
  List.find p (seq s n) = Some i.
Proof.
  intros Hi Hp Hj. destruct (List.find p (seq s n)) as [k|] eqn:Hk.
  - apply find_seq_Some in Hk as (Hks & Hpk & Hjk).
    f_equal. destruct (Nat.lt_trichotomy k i) as [?|[?|?]]; [|done|].
    + rewrite Hj in Hpk; [done|lia].
    + rewrite Hjk in Hp; [done|lia].
  - rewrite (find_seq_None _ _ Hk i) in Hp; done.
Qed.

End find_range.

(** ** [locate_array_diff] *)

Lemma byte_eqb_false (x y : byte) : Byte.eqb x y = false <-> x <> y.
Proof.
  split.
  - intros H ->. by rewrite (Byte.byte_dec_lb (eq_refl y)) in H.
  - intros H. destruct (Byte.eqb x y) eqn:E; [|done].
    by apply Byte.byte_dec_bl in E.
Qed.

Lemma byte_at_lookup (a : list byte) (i : nat) :
  (i < length a)%nat -> a !! i = Some (byte_at a i).
Proof.
  intros Hi. unfold byte_at. rewrite nth_lookup.
  destruct (lookup_lt_is_Some_2 a i Hi) as [x ->]. done.
Qed.

Lemma differ_at (a b : list byte) (i : nat) :
  (i < Nat.min (length a) (length b))%nat ->
  negb (Byte.eqb (byte_at a i) (byte_at b i)) = true <-> a !! i <> b !! i.
Proof.
  intros Hi.
  rewrite !byte_at_lookup by lia.
  rewrite negb_true_iff, byte_eqb_false. split; congruence.
Qed.

Lemma locate_array_diff_first (a b : list byte) (i : nat) :
  (i < Nat.min (length a) (length b))%nat ->
  a !! i <> b !! i ->
  (forall j, (j < i)%nat -> a !! j = b !! j) ->
  locate_array_diff a b = Z.of_nat i.
Proof.
  intros Hi Hne Hbefore. unfold locate_array_diff.
  rewrite (find_seq_first _ 0 _ i); [done|lia|by apply differ_at|].
  intros j Hj. apply not_true_is_false. rewrite differ_at by lia.
  intros Hd. apply Hd, Hbefore. lia.
Qed.

Lemma locate_array_diff_prefix (a b : list byte) :
  (forall i, (i < Nat.min (length a) (length b))%nat -> a !! i = b !! i) ->
  locate_array_diff a b =
    if decide (length a = length b) then -1
    else Z.of_nat (Nat.min (length a) (length b)).
Proof.
  intros Hsame. unfold locate_array_diff.
  destruct (List.find _ _) as [i|] eqn:Hfind.
  - apply find_seq_Some in Hfind as (Hi & Hp & _).
    apply differ_at in Hp; [|lia]. destruct Hp. apply Hsame. lia.
  - destruct (decide (length a = length b)) as [->|Hne].
    + by rewrite Nat.eqb_refl.
    + apply Nat.eqb_neq in Hne. by rewrite Hne.
Qed.

(** C4.  [locate_array_diff a b] is the first index below
    [min (len a) (len b)] at which the two arrays differ, when there is one;
    when there is none it is that minimum if the lengths differ and [-1] if
    they are equal.  Two empty arrays give [-1]; an empty and a non-empty
    array give [0]. *)
Theorem locate_array_diff_spec (a b : list byte) :
  (forall i : nat,
      (i < Nat.min (length a) (length b))%nat ->
      a !! i <> b !! i ->
      (forall j, (j < i)%nat -> a !! j = b !! j) ->
      locate_array_diff a b = Z.of_nat i)
  /\ ((forall i, (i < Nat.min (length a) (length b))%nat -> a !! i = b !! i) ->
      length a <> length b ->
      locate_array_diff a b = Z.of_nat (Nat.min (length a) (length b)))
  /\ ((forall i, (i < Nat.min (length a) (length b))%nat -> a !! i = b !! i) ->
      length a = length b ->
      locate_array_diff a b = -1)
  /\ locate_array_diff [] [] = -1
  /\ (a <> [] -> locate_array_diff a [] = 0)
  /\ (b <> [] -> locate_array_diff [] b = 0).
Proof.
  split_and!.
  - apply locate_array_diff_first.
  - intros Hsame Hne. rewrite locate_array_diff_prefix by done.
    by destruct (decide _).
  - intros Hsame Heq. rewrite locate_array_diff_prefix by done.
    by destruct (decide _).
  - reflexivity.
  - intros Ha. destruct a; [done|]. reflexivity.
  - intros Hb. destruct b; [done|]. reflexivity.
Qed.

(** The theorem at the arrays of the test suite and at an empty array. *)
Lemma locate_array_diff_spec_witness :
  locate_array_diff [x01; x02; x03] [x01; x01; x03; x04] = 1
  /\ locate_array_diff [x01; x02; x03] [x01; x02; x03; x04] = 3
  /\ locate_array_diff [x01; x02; x03] [x01; x02; x03] = -1
  /\ locate_array_diff [x01] [] = 0.
Proof.
  split_and!.
  - apply (proj1 (locate_array_diff_spec [x01; x02; x03]
                    [x01; x01; x03; x04]) 1%nat);
      [simpl; lia|discriminate|].
    intros [|j] Hj; [reflexivity|lia].
  - apply (proj1 (proj2 (locate_array_diff_spec [x01; x02; x03]
                           [x01; x02; x03; x04])));
      [|discriminate].
    intros [|[|[|i]]] Hi; try reflexivity. simpl in Hi. lia.
  - apply (proj1 (proj2 (proj2 (locate_array_diff_spec [x01; x02; x03]
                                  [x01; x02; x03]))));
      [|reflexivity].
    intros i Hi. reflexivity.
  - apply (proj1 (proj2 (proj2 (proj2 (proj2
             (locate_array_diff_spec [x01] []))))));
      discriminate.
Defined.

(** ** [compare_dict] *)

Section compare_dict_keys.

Context {V M : Type}.
Variable modified_value : V -> V -> M.
Variables d1 d2 : gmap atom V.
Variables include_modified include_same : bool.
Variable compare_function : V -> V -> bool.

Let r :=
  compare_dict_with modified_value d1 d2 include_modified include_same
    compare_function.

Lemma compare_dict_with_left_new : DictDiff.left_new r = dom d1 ∖ dom d2.
Proof. reflexivity. Qed.

Lemma compare_dict_with_right_new : DictDiff.right_new r = dom d2 ∖ dom d1.
Proof. reflexivity. Qed.

Lemma compare_dict_with_common : DictDiff.common_keys r = dom d1 ∩ dom d2.
Proof. reflexivity. Qed.

Lemma compare_dict_with_same (k : atom) :
  k ∈ DictDiff.same r <->
  exists v1 v2, d1 !! k = Some v1 /\ d2 !! k = Some v2 /\
                compare_function v1 v2 = true /\ include_same = true.
Proof.
  unfold r, compare_dict_with; simpl.
  rewrite elem_of_dom, lookup_omap, lookup_merge.
  destruct (d1 !! k) as [v1|], (d2 !! k) as [v2|]; simpl;
    try (split; [intros [? [=]]|intros (? & ? & ? & ?); naive_solver]).
  destruct (compare_function v1 v2) eqn:Hc, include_same,
    include_modified; simpl;
    (split; [intros [? [=]]; eauto 10|intros (? & ? & [= <-] & [= <-] & ? & ?);
             first [congruence|eauto]]).
Qed.

Lemma compare_dict_with_modified (k : atom) :
  k ∈ dom (DictDiff.modified r) <->
  exists v1 v2, d1 !! k = Some v1 /\ d2 !! k = Some v2 /\
                compare_function v1 v2 = false /\ include_modified = true.
Proof.
  unfold r, compare_dict_with; simpl.
  rewrite elem_of_dom, lookup_omap, lookup_merge.
  destruct (d1 !! k) as [v1|], (d2 !! k) as [v2|]; simpl;
    try (split; [intros [? [=]]|intros (? & ? & ? & ?); naive_solver]).
  destruct (compare_function v1 v2) eqn:Hc, include_same,
    include_modified; simpl;
    (split; [intros [? [=]]; eauto 10|intros (? & ? & [= <-] & [= <-] & ? & ?);
             first [congruence|eauto]]).
Qed.

Lemma compare_dict_with_partition :
  DictDiff.left_new r ∪ DictDiff.common_keys r = dom d1
  /\ DictDiff.right_new r ∪ DictDiff.common_keys r = dom d2
  /\ DictDiff.left_new r ∩ DictDiff.right_new r = ∅.
Proof.
  rewrite compare_dict_with_left_new, compare_dict_with_right_new,
    compare_dict_with_common.
  split_and!; apply set_eq; intros k.
  - destruct (decide (k ∈ dom d2)); set_solver.
  - destruct (decide (k ∈ dom d1)); set_solver.
  - set_solver.
Qed.

Lemma compare_dict_with_classified_common :
  DictDiff.same r ∪ dom (DictDiff.modified r) ⊆ DictDiff.common_keys r
  /\ DictDiff.same r ∩ dom (DictDiff.modified r) = ∅.
Proof.
  split.
  - intros k [Hk|Hk]%elem_of_union.
    + apply compare_dict_with_same in Hk as (v1 & v2 & H1 & H2 & _).
      rewrite compare_dict_with_common, elem_of_intersection, !elem_of_dom.
      eauto.
    + apply compare_dict_with_modified in Hk as (v1 & v2 & H1 & H2 & _).
      rewrite compare_dict_with_common, elem_of_intersection, !elem_of_dom.
      eauto.
  - apply set_eq; intros k. split; [|set_solver].
    intros [Hs Hm]%elem_of_intersection.
    apply compare_dict_with_same in Hs as (v1 & v2 & H1 & H2 & Hc & _).
    apply compare_dict_with_modified in Hm as (w1 & w2 & H1' & H2' & Hc' & _).
    congruence.
Qed.

End compare_dict_keys.

Lemma compare_dict_with_covered {V M : Type} (modified_value : V -> V -> M)
    (d1 d2 : gmap atom V) (compare_function : V -> V -> bool) :
  let r := compare_dict_with modified_value d1 d2 true true
             compare_function in
  DictDiff.common_keys r = DictDiff.same r ∪ dom (DictDiff.modified r).
Proof.
  intros r. apply set_eq; intros k. split.
  - unfold r at 1. rewrite compare_dict_with_common.
    intros [[v1 H1]%elem_of_dom [v2 H2]%elem_of_dom]%elem_of_intersection.
    apply elem_of_union.
    destruct (compare_function v1 v2) eqn:Hc.
    + left. apply compare_dict_with_same. eauto 10.
    + right. apply compare_dict_with_modified. eauto 10.
  - apply (compare_dict_with_classified_common modified_value d1 d2 true true
             compare_function).
Qed.

(** C9, as the code has it.  For all dictionaries and all flags,
    [left_new ∪ common_keys] is the key set of the left dictionary,
    [right_new ∪ common_keys] that of the right one, [left_new] and
    [right_new] are disjoint, and [same] and the keys of [modified] are
    disjoint subsets of [common_keys]; [common_keys] is exactly their union
    when both [include_same] and [include_modified] are set. *)
Theorem compare_dict_key_sets (d1 d2 : gmap atom value)
    (deep include_modified include_same : bool)
    (compare_function : value -> value -> bool) :
  let r := compare_dict d1 d2 deep include_modified include_same
             compare_function in
  let full := compare_dict d1 d2 deep true true compare_function in
  DictDiff.left_new r ∪ DictDiff.common_keys r = dom d1
  /\ DictDiff.right_new r ∪ DictDiff.common_keys r = dom d2
  /\ DictDiff.left_new r ∩ DictDiff.right_new r = ∅
  /\ DictDiff.same r ∪ dom (DictDiff.modified r) ⊆ DictDiff.common_keys r
  /\ DictDiff.same r ∩ dom (DictDiff.modified r) = ∅
  /\ DictDiff.common_keys full
     = DictDiff.same full ∪ dom (DictDiff.modified full).
Proof.
  intros r full. unfold r, full, compare_dict.
  pose proof (compare_dict_with_partition (modified_value deep include_same)
                d1 d2 include_modified include_same compare_function)
    as (H1 & H2 & H3).
  pose proof (compare_dict_with_classified_common
                (modified_value deep include_same)
                d1 d2 include_modified include_same compare_function)
    as (H4 & H5).
  split_and!; try done.
  apply compare_dict_with_covered.
Qed.

(** C9 as stated fails when a flag is off: with [include_same=False] a
    common key of equal values is in [common_keys] and in neither [same] nor
    [modified]. *)
Lemma compare_dict_common_not_covered :
  let d : gmap atom value := {[ Str "e_type" := Atom (Str "ET_EXEC") ]} in
  let r := compare_dict d d false true false operator_eq in
  DictDiff.common_keys r <> DictDiff.same r ∪ dom (DictDiff.modified r).
Proof.
  intros d r H.
  apply (f_equal (fun s : gset atom => bool_decide (Str "e_type" ∈ s))) in H.
  vm_compute in H. discriminate.
Qed.

(** ** The stable sort *)

Section sort_by_key.

Context {A : Type}.
Variable key : A -> Z.

Lemma insert_by_key_perm (x : A) (l : list A) :
  insert_by_key key x l ≡ₚ x :: l.
Proof.
  induction l as [|y l IH]; simpl; [done|].
  destruct (key x <=? key y); [done|].
  rewrite IH. apply Permutation_swap.
Qed.

Lemma sort_by_key_perm (l : list A) : sort_by_key key l ≡ₚ l.
Proof.
  induction l as [|x l IH]; simpl; [done|].
  fold (sort_by_key key l). by rewrite insert_by_key_perm, IH.
Qed.

Lemma elem_of_sort_by_key (x : A) (l : list A) :
  x ∈ sort_by_key key l <-> x ∈ l.
Proof. by rewrite sort_by_key_perm. Qed.

Lemma length_sort_by_key (l : list A) :
  length (sort_by_key key l) = length l.
Proof. by rewrite sort_by_key_perm. Qed.

Lemma insert_by_key_least (x : A) (l : list A) :
  Forall (key_le key x) l -> insert_by_key key x l = x :: l.
Proof.
  destruct 1 as [|y l Hy _]; simpl; [done|].
  unfold key_le in Hy. apply Z.leb_le in Hy. by rewrite Hy.
Qed.

(** An element that was first and has a least key stays first. *)
Lemma sort_by_key_least (x : A) (l : list A) :
  Forall (key_le key x) l ->
  sort_by_key key (x :: l) = x :: sort_by_key key l.
Proof.
  intros Hl. simpl. fold (sort_by_key key l).
  apply insert_by_key_least. by rewrite sort_by_key_perm.
Qed.

(** A list in order is left as it is. *)
Lemma sort_by_key_sorted (l : list A) :
  StronglySorted (key_le key) l -> sort_by_key key l = l.
Proof.
  induction 1 as [|x l Hl IH Hx]; [done|].
  rewrite sort_by_key_least by done. by rewrite IH.
Qed.

Lemma insert_by_key_sorted (x : A) (l : list A) :
  StronglySorted (key_le key) l -> StronglySorted (key_le key) (insert_by_key key x l).
Proof.
  induction 1 as [|y l Hl IH Hy]; simpl.
  - by repeat constructor.
  - destruct (key x <=? key y) eqn:Hxy.
    + apply Z.leb_le in Hxy. constructor; [by constructor|].
      constructor; [done|].
      eapply Forall_impl; [exact Hy|]. unfold key_le. intros; lia.
    + apply Z.leb_gt in Hxy. constructor; [done|].
      rewrite insert_by_key_perm. constructor; [|done].
      unfold key_le. lia.
Qed.

Lemma sort_by_key_is_sorted (l : list A) :
  StronglySorted (key_le key) (sort_by_key key l).
Proof.
  induction l as [|x l IH]; simpl; [constructor|].
  by apply insert_by_key_sorted.
Qed.

End sort_by_key.

Lemma StronglySorted_lookup_lt {A : Type} (R : A -> A -> Prop) (l : list A)
    (i j : nat) (x y : A) :
  StronglySorted R l -> l !! i = Some x -> l !! j = Some y -> (i < j)%nat ->
  R x y.
Proof.
  intros Hl. revert i j. induction Hl as [|a l Hl IH Ha]; intros i j.
  - by rewrite lookup_nil.
  - destruct i as [|i], j as [|j]; simpl; intros Hi Hj Hlt; try lia.
    + injection Hi as ->. rewrite Forall_forall in Ha.
      apply Ha. by eapply list_elem_of_lookup_2.
    + apply (IH i j); [done..|lia].
Qed.

(** ** Indexed loops *)

Lemma elem_of_flat_map_seq {B : Type} (f : nat -> list B) (n : nat) (y : B) :
  y ∈ flat_map f (seq 0 n) <-> exists i, (i < n)%nat /\ y ∈ f i.
Proof.
  rewrite list_elem_of_In, in_flat_map. split.
  - intros (i & Hi%in_seq & Hy). exists i. rewrite list_elem_of_In. split; [lia|done].
  - intros (i & Hi & Hy). exists i. rewrite in_seq, <- list_elem_of_In.
    split; [lia|done].
Qed.

Lemma lookup_succ_lt {B : Type} (l : list B) (i : nat) (y : B) :
  l !! S i = Some y -> (i < length l - 1)%nat.
Proof. intros H%lookup_lt_Some. lia. Qed.

(** ** Overlaps *)

Import ComparableElf.

Lemma overlap_at_spec (used : list Block.t) (i : nat) (p : Block.t * Block.t) :
  p ∈ overlap_at used i <->
  used !! i = Some p.1 /\ used !! S i = Some p.2 /\
  Block.last_offset p.1 > Block.start_offset p.2.
Proof.
  unfold overlap_at. destruct p as [cur next]; simpl.
  destruct (used !! i) as [c|], (used !! S i) as [n|];
    try (rewrite elem_of_nil; naive_solver).
  destruct (Z.gtb_spec (Block.last_offset c) (Block.start_offset n)).
  - rewrite list_elem_of_singleton. split.
    + intros [= -> ->]. split_and!; [done..|lia].
    + by intros ([= ->] & [= ->] & _).
  - rewrite elem_of_nil. split; [done|].
    intros ([= ->] & [= ->] & ?). lia.
Qed.

(** What the loop of [_check_overlapped_blocks] flags. *)
Lemma check_overlapped_blocks_iff (used : list Block.t)
    (cur next : Block.t) :
  (cur, next) ∈ _check_overlapped_blocks used <->
  exists i, used !! i = Some cur /\ used !! S i = Some next /\
            Block.last_offset cur > Block.start_offset next.
Proof.
  unfold _check_overlapped_blocks. rewrite elem_of_flat_map_seq. split.
  - intros (i & _ & H%overlap_at_spec). by exists i.
  - intros (i & Hc & Hn & Hgt). exists i. split.
    + by eapply lookup_succ_lt.
    + by apply overlap_at_spec.
Qed.

(** Three instances: [[0,10)] before [[5,15)] is flagged, [[0,10)] before
    [[10,20)] is not, and an empty block is never the first of a flagged
    pair in a list sorted by start offset. *)
Lemma check_overlapped_blocks_instances (self : ELFFile.t)
    (t1 t2 : BlockType.t) (o1 o2 : option Block.object) :
  _check_overlapped_blocks
    [Block.init 0 10 t1 self o1; Block.init 5 10 t2 self o2]
  = [(Block.init 0 10 t1 self o1, Block.init 5 10 t2 self o2)]
  /\ _check_overlapped_blocks
       [Block.init 0 10 t1 self o1; Block.init 10 10 t2 self o2] = []
  /\ forall used cur next,
       StronglySorted (key_le Block.start_offset) used ->
       Block.size cur = 0 ->
       (cur, next) ∉ _check_overlapped_blocks used.
Proof.
  split_and!; [reflexivity..|].
  intros used cur next Hsorted Hsize (i & Hc & Hn & Hgt)%check_overlapped_blocks_iff.
  assert (key_le Block.start_offset cur next) as Hle.
  { apply (StronglySorted_lookup_lt _ used i (S i)); auto with lia. }
  unfold key_le, Block.last_offset in *. lia.
Qed.

(** C2.  The claim flags [(cur, next)] whenever
    [cur.start_offset + cur.size > next.start_offset]; the code tests
    [cur.last_offset() > next.start_offset], which is one byte stricter:
    blocks [[0,10)] and [[9,19)] share byte 9 and are not flagged. *)
Theorem check_overlapped_blocks_one_byte (self : ELFFile.t)
    (t1 t2 : BlockType.t) (o1 o2 : option Block.object) :
  let cur := Block.init 0 10 t1 self o1 in
  let next := Block.init 9 10 t2 self o2 in
  Block.start_offset cur + Block.size cur > Block.start_offset next
  /\ _check_overlapped_blocks [cur; next] = [].
Proof. split; reflexivity. Qed.

(** ** Gaps *)

Lemma gap_after_spec (self : ELFFile.t) (used : list Block.t) (i : nat)
    (g : Block.t) :
  g ∈ gap_after self used i <->
  exists cur next,
    used !! i = Some cur /\ used !! S i = Some next /\
    Block.end_offset cur < Block.start_offset next /\
    g = gap self (Block.end_offset cur) (Block.start_offset next).
Proof.
  unfold gap_after.
  destruct (used !! i) as [c|], (used !! S i) as [n|];
    try (rewrite elem_of_nil; naive_solver).
  destruct (Z.geb_spec (Block.end_offset c) (Block.start_offset n)).
  - rewrite elem_of_nil. split; [done|].
    intros (? & ? & [= <-] & [= <-] & ? & _). lia.
  - rewrite list_elem_of_singleton. split.
    + intros ->. exists c, n. split_and!; done.
    + by intros (? & ? & [= <-] & [= <-] & _ & ->).
Qed.

(** The gaps found between used blocks, whichever way the guard
    [len(used_blocks) > 1] goes. *)
Lemma gaps_between_spec (self : ELFFile.t) (used : list Block.t)
    (g : Block.t) :
  g ∈ (if 1 <? len used
       then flat_map (gap_after self used) (seq 0 (length used - 1))
       else []) <->
  exists i cur next,
    used !! i = Some cur /\ used !! S i = Some next /\
    Block.end_offset cur < Block.start_offset next /\
    g = gap self (Block.end_offset cur) (Block.start_offset next).
Proof.
  destruct (Z.ltb_spec 1 (len used)) as [Hlen|Hlen].
  - rewrite elem_of_flat_map_seq. split.
    + intros (i & _ & H%gap_after_spec). by exists i.
    + intros (i & cur & next & Hc & Hn & Hlt & ->). exists i. split.
      * by eapply lookup_succ_lt.
      * apply gap_after_spec. by exists cur, next.
  - rewrite elem_of_nil. split; [done|].
    intros (i & cur & next & _ & Hn%lookup_lt_Some & _).
    unfold len in Hlen. lia.
Qed.

(** On a non-empty list [_get_not_used_blocks] returns, and its result
    holds the gaps between adjacent used blocks and the gap after the last
    one, and nothing else. *)
Lemma get_not_used_blocks_spec (self : ELFFile.t)
    (header_raw : gmap atom value) (sections : list Section.t)
    (used : list Block.t) :
  used <> [] ->
  exists gaps,
    _get_not_used_blocks self header_raw sections (Some used) = Ok gaps
    /\ StronglySorted (key_le Block.start_offset) gaps
    /\ forall g, g ∈ gaps <->
         (exists i cur next,
             used !! i = Some cur /\ used !! S i = Some next /\
             Block.end_offset cur < Block.start_offset next /\
             g = gap self (Block.end_offset cur) (Block.start_offset next))
         \/ (exists last_used_block,
                last used = Some last_used_block /\
                Block.end_offset last_used_block < file_size self /\
                g = gap self (Block.end_offset last_used_block)
                      (file_size self)).
Proof.
  intros Hne. unfold _get_not_used_blocks.
  destruct (last used) as [l|] eqn:Hlast; [|by apply last_None in Hlast].
  eexists. split; [reflexivity|]. split; [apply sort_by_key_is_sorted|].
  intros g. rewrite elem_of_sort_by_key.
  destruct (Z.ltb_spec (Block.end_offset l) (file_size self)) as [Hlt|Hge].
  - rewrite elem_of_app, gaps_between_spec, list_elem_of_singleton.
    split; (intros [H|H]; [by left|right]).
    + exists l. by rewrite H.
    + by destruct H as (? & [= <-] & _ & ->).
  - rewrite gaps_between_spec. split; [by left|].
    intros [H|(? & [= <-] & ? & _)]; [done|lia].
Qed.

(** A file made of the header, the program-header table right after it,
    the section-header table right after that, and no section. *)
Lemma tables_only_file (self : ELFFile.t) (H P S F : Z) :
  ELFFile.iter_sections self = [] ->
  ELFFile.e_ehsize self = H ->
  ELFFile.e_phoff self = H ->
  ELFFile.e_phentsize self * ELFFile.e_phnum self = P ->
  ELFFile.e_shoff self = H + P ->
  ELFFile.e_shentsize self * ELFFile.e_shnum self = S ->
  file_size self = F ->
  0 <= H -> 0 <= P -> H + P + S < F ->
  let used :=
    _get_used_blocks self (make_header_raw self)
      (ELFFile.iter_sections self) in
  used = [header_block self; program_header_table_block self;
          section_header_table_block self]
  /\ _get_not_used_blocks self (make_header_raw self)
       (ELFFile.iter_sections self) (Some used)
     = Ok [gap self (H + P + S) F]
  /\ _check_overlapped_blocks used = [].
Proof.
  intros Hsecs Heh Hph Hp Hsh Hs Hf HH HP HF used.
  assert (used = [header_block self; program_header_table_block self;
                  section_header_table_block self]) as Hused.
  { unfold used, _get_used_blocks. rewrite Hsecs. simpl flat_map.
    rewrite app_nil_r. apply sort_by_key_sorted.
    repeat constructor; unfold key_le; simpl; lia. }
  rewrite Hused. split; [done|]. split.
  - unfold _get_not_used_blocks, gap_after, gap, header_block,
      program_header_table_block, section_header_table_block,
      Block.end_offset, Block.init.
    simpl. rewrite Hf, Heh, Hph, Hp, Hsh, Hs.
    destruct (Z.geb_spec (0 + H) H); [|lia].
    destruct (Z.geb_spec (H + P) (H + P)); [|lia].
    destruct (Z.ltb_spec (H + P + S) F); [|lia].
    reflexivity.
  - unfold _check_overlapped_blocks, overlap_at, header_block,
      program_header_table_block, section_header_table_block,
      Block.last_offset, Block.init.
    simpl. rewrite Heh, Hph, Hp, Hsh.
    destruct (Z.gtb_spec (0 + H - 1) H); [lia|].
    destruct (Z.gtb_spec (H + P - 1) (H + P)); [lia|].
    reflexivity.
Qed.

(** C3.  For a non-empty list of used blocks, gap computation returns a
    list that holds a [Gap] block [[cur.end_offset, next.start_offset)] for
    every adjacent pair with [cur.end_offset < next.start_offset], and a
    trailing [Gap] block [[last.end_offset, file_size)] when the last used
    block ends before the end of the file.  For a file made of a header of
    size [H] at 0, a program-header table of size [P] right after it, a
    section-header table of size [S] right after that and no section, of
    size [F > H + P + S], the used blocks are the three tables, the only gap
    is [[H + P + S, F)] and no overlap is detected. *)
Theorem get_not_used_blocks_gaps :
  (forall (self : ELFFile.t) (header_raw : gmap atom value)
          (sections : list Section.t) (used : list Block.t),
      used <> [] ->
      exists gaps,
        _get_not_used_blocks self header_raw sections (Some used) = Ok gaps
        /\ (forall i cur next,
               used !! i = Some cur -> used !! S i = Some next ->
               Block.end_offset cur < Block.start_offset next ->
               gap self (Block.end_offset cur) (Block.start_offset next)
                 ∈ gaps)
        /\ (forall last_used_block,
               last used = Some last_used_block ->
               Block.end_offset last_used_block < file_size self ->
               gap self (Block.end_offset last_used_block) (file_size self)
                 ∈ gaps))
  /\ (forall (self : ELFFile.t) (H P S F : Z),
         ELFFile.iter_sections self = [] ->
         ELFFile.e_ehsize self = H ->
         ELFFile.e_phoff self = H ->
         ELFFile.e_phentsize self * ELFFile.e_phnum self = P ->
         ELFFile.e_shoff self = H + P ->
         ELFFile.e_shentsize self * ELFFile.e_shnum self = S ->
         file_size self = F ->
         0 <= H -> 0 <= P -> H + P + S < F ->
         let used :=
           _get_used_blocks self (make_header_raw self)
             (ELFFile.iter_sections self) in
         used = [header_block self; program_header_table_block self;
                 section_header_table_block self]
         /\ _get_not_used_blocks self (make_header_raw self)
              (ELFFile.iter_sections self) (Some used)
            = Ok [gap self (H + P + S) F]
         /\ _check_overlapped_blocks used = []).
Proof.
  split.
  - intros self header_raw sections used Hne.
    destruct (get_not_used_blocks_spec self header_raw sections used Hne)
      as (gaps & Hgaps & _ & Hin).
    exists gaps. split; [done|]. split.
    + intros i cur next Hc Hn Hlt. apply Hin. left. by exists i, cur, next.
    + intros l Hl Hlt. apply Hin. right. by exists l.
  - apply tables_only_file.
Qed.

(** C8, as the code has it.  [_get_not_used_blocks] has no guard for an
    empty list of used blocks: [used_blocks[-1]] raises [IndexError] and no
    gap is produced.  On every non-empty list it returns. *)
Theorem get_not_used_blocks_empty (self : ELFFile.t)
    (header_raw : gmap atom value) (sections : list Section.t) :
  _get_not_used_blocks self header_raw sections (Some []) = Raise IndexError
  /\ forall (b : Block.t) (used : list Block.t),
       exists gaps,
         _get_not_used_blocks self header_raw sections (Some (b :: used))
         = Ok gaps.
Proof.
  split; [reflexivity|].
  intros b used.
  destruct (get_not_used_blocks_spec self header_raw sections (b :: used))
    as (gaps & Hgaps & _); [done|].
  by exists gaps.
Qed.

(** The theorem at the file [tables_file]: [H = 64], [P = 56], [S = 64],
    [F = 200]. *)
Lemma get_not_used_blocks_gaps_witness :
  (exists gaps,
      _get_not_used_blocks tables_file ∅ []
        (Some [header_block tables_file;
               program_header_table_block tables_file;
               section_header_table_block tables_file]) = Ok gaps
      /\ gap tables_file 184 200 ∈ gaps)
  /\ _get_not_used_blocks tables_file (make_header_raw tables_file) []
       (Some (_get_used_blocks tables_file (make_header_raw tables_file) []))
     = Ok [gap tables_file 184 200]
  /\ _check_overlapped_blocks
       (_get_used_blocks tables_file (make_header_raw tables_file) []) = [].
Proof.
  split.
  - destruct (proj1 get_not_used_blocks_gaps tables_file ∅ []
                [header_block tables_file;
                 program_header_table_block tables_file;
                 section_header_table_block tables_file])
      as (gaps & Hgaps & _ & Hlast); [discriminate|].
    exists gaps. split; [exact Hgaps|].
    apply (Hlast (section_header_table_block tables_file));
      [reflexivity|vm_compute; reflexivity].
  - apply (proj2 get_not_used_blocks_gaps tables_file 64 56 64 200);
      first [reflexivity|lia].
Defined.

(** C8 as stated fails: on an empty list of used blocks the computation
    raises [IndexError], and the whole file is not returned as one gap. *)
Lemma get_not_used_blocks_empty_not_guarded :
  _get_not_used_blocks tables_file (make_header_raw tables_file) [] (Some [])
  = Raise IndexError
  /\ _get_not_used_blocks tables_file (make_header_raw tables_file) []
       (Some [])
     <> Ok [gap tables_file 0 (file_size tables_file)].
Proof. split; [reflexivity|discriminate]. Qed.

(** ** Used blocks *)

Lemma section_blocks_from_zero (self : ELFFile.t) (sections : list Section.t) :
  Forall (fun s => 0 <= Section.sh_offset s) sections ->
  Forall (key_le Block.start_offset (header_block self))
    (flat_map (fun section =>
                 if is_dummy section then []
                 else [section_block self section])
              sections).
Proof.
  induction 1 as [|s l Hs _ IH]; simpl; [constructor|].
  destruct (is_dummy s); simpl; [done|]. by constructor.
Qed.

(** C10.  For a parsed file, whose offsets are unsigned, the list of used
    blocks holds the three table blocks, so at least three blocks, is sorted
    by start offset, and starts with the ELF header block, at offset 0;
    [read_metadata] therefore computes the gaps from a non-empty list and
    returns. *)
Theorem used_blocks_start_with_header (self : ELFFile.t) :
  0 <= ELFFile.e_phoff self ->
  0 <= ELFFile.e_shoff self ->
  Forall (fun s => 0 <= Section.sh_offset s) (ELFFile.iter_sections self) ->
  let used :=
    _get_used_blocks self (make_header_raw self)
      (ELFFile.iter_sections self) in
  header_block self ∈ used
  /\ program_header_table_block self ∈ used
  /\ section_header_table_block self ∈ used
  /\ (3 <= length used)%nat
  /\ StronglySorted (key_le Block.start_offset) used
  /\ (exists rest, used = header_block self :: rest)
  /\ Block.start_offset (header_block self) = 0
  /\ exists elf gaps,
       read_metadata self = Ok elf
       /\ used_blocks elf = used /\ used <> []
       /\ not_used_blocks elf = gaps
       /\ _get_not_used_blocks self (make_header_raw self)
            (ELFFile.iter_sections self) (Some used) = Ok gaps.
Proof.
  intros Hph Hsh Hsecs used.
  assert (exists rest, used = header_block self :: rest) as [rest Hused].
  { eexists. unfold used, _get_used_blocks. simpl app.
    apply sort_by_key_least.
    repeat (constructor; [unfold key_le; simpl; lia|]).
    by apply section_blocks_from_zero. }
  split_and!.
  - apply elem_of_sort_by_key. set_solver.
  - apply elem_of_sort_by_key. set_solver.
  - apply elem_of_sort_by_key. set_solver.
  - unfold used, _get_used_blocks. rewrite length_sort_by_key, length_app.
    simpl. lia.
  - apply sort_by_key_is_sorted.
  - by exists rest.
  - reflexivity.
  - destruct (get_not_used_blocks_spec self (make_header_raw self)
                (ELFFile.iter_sections self) used)
      as (gaps & Hgaps & _); [by rewrite Hused|].
    eexists _, gaps. unfold read_metadata. fold used. rewrite Hgaps. simpl.
    split_and!; try done. by rewrite Hused.
Qed.

(** The theorem at [overlap_file]. *)
Lemma used_blocks_start_with_header_witness :
  let used :=
    _get_used_blocks overlap_file (make_header_raw overlap_file)
      (ELFFile.iter_sections overlap_file) in
  (3 <= length used)%nat
  /\ exists rest, used = header_block overlap_file :: rest.
Proof.
  intros used.
  assert (Forall (fun s => 0 <= Section.sh_offset s)
            (ELFFile.iter_sections overlap_file)) as Hsecs.
  { repeat constructor; simpl; lia. }
  destruct (used_blocks_start_with_header overlap_file
              ltac:(simpl; lia) ltac:(simpl; lia) Hsecs)
    as (_ & _ & _ & Hlen & _ & Hfirst & _).
  split; [exact Hlen|exact Hfirst].
Defined.

(** ** Gaps never overlap *)

Lemma gap_after_shift (self : ELFFile.t) (x : Block.t) (l : list Block.t)
    (s n : nat) :
  flat_map (gap_after self (x :: l)) (seq (S s) n)
  = flat_map (gap_after self l) (seq s n).
Proof.
  revert s. induction n as [|n IH]; intros s; simpl; [done|].
  by rewrite IH.
Qed.

(** The gaps between sorted used blocks of non-negative sizes come out in
    order, one ending before the next starts; each is non-empty, starts at
    or after the first used block and ends at or before the last one. *)
Lemma gaps_between_separated (self : ELFFile.t) (cur : Block.t)
    (rest : list Block.t) :
  StronglySorted (key_le Block.start_offset) (cur :: rest) ->
  Forall (fun b => 0 <= Block.size b) (cur :: rest) ->
  let gaps := flat_map (gap_after self (cur :: rest)) (seq 0 (length rest)) in
  StronglySorted before gaps
  /\ Forall (fun g =>
               0 < Block.size g
               /\ Block.start_offset cur <= Block.start_offset g
               /\ forall l, last (cur :: rest) = Some l ->
                            Block.end_offset g <= Block.start_offset l)
            gaps.
Proof.
  revert cur. induction rest as [|next rest IH]; intros cur Hsorted Hsizes.
  { simpl. split; constructor. }
  cbn [length seq flat_map]. rewrite gap_after_shift.
  apply StronglySorted_inv in Hsorted as [Hsorted' Hcur].
  apply Forall_cons in Hsizes as [Hsize_cur Hsizes'].
  destruct (IH next Hsorted' Hsizes') as [IHsorted IHall].
  assert (key_le Block.start_offset cur next) as Hcn
    by (by apply Forall_cons in Hcur as [? _]).
  assert (forall l, last (cur :: next :: rest) = Some l ->
                    Block.start_offset next <= Block.start_offset l) as Hlast.
  { intros l Hl. rewrite last_cons_cons in Hl.
    apply last_Some in Hl as [front Hl].
    destruct front as [|b front]; simplify_eq/=; [lia|].
    apply Forall_cons in Hsizes' as [_ _].
    apply StronglySorted_inv in Hsorted' as [_ Hnext].
    rewrite Forall_forall in Hnext. apply Hnext. set_solver. }
  assert (Forall (fun g =>
                    0 < Block.size g
                    /\ Block.start_offset cur <= Block.start_offset g
                    /\ forall l, last (cur :: next :: rest) = Some l ->
                                 Block.end_offset g <= Block.start_offset l)
            (flat_map (gap_after self (next :: rest)) (seq 0 (length rest))))
    as Hrest.
  { eapply Forall_impl; [exact IHall|]. cbv beta.
    intros g (Hpos & Hstart & Hend). unfold key_le in Hcn.
    split_and!; [done|lia|].
    intros l Hl. apply Hend. by rewrite last_cons_cons in Hl. }
  assert (gap_after self (cur :: next :: rest) 0 = []
          \/ Block.end_offset cur < Block.start_offset next
             /\ gap_after self (cur :: next :: rest) 0
                = [gap self (Block.end_offset cur) (Block.start_offset next)])
    as [->|[Hlt ->]].
  { unfold gap_after. simpl.
    destruct (Z.geb_spec (Block.end_offset cur) (Block.start_offset next));
      [by left|by right]. }
  { done. }
  unfold key_le, Block.end_offset in *. split.
  - constructor; [done|].
    eapply Forall_impl; [exact IHall|]. unfold before, Block.end_offset.
    simpl. intros g (_ & Hstart & _). lia.
  - constructor; [|done]. simpl. split_and!; [lia..|].
    intros l Hl. apply Hlast in Hl. lia.
Qed.

Lemma separated_sorted_by_start (gaps : list Block.t) :
  StronglySorted before gaps ->
  Forall (fun g => 0 < Block.size g) gaps ->
  StronglySorted (key_le Block.start_offset) gaps.
Proof.
  induction 1 as [|g gaps Hsorted IH Hg]; intros Hpos; [constructor|].
  apply Forall_cons in Hpos as [Hpos_g Hpos].
  constructor; [by apply IH|].
  eapply Forall_impl; [exact Hg|].
  unfold before, key_le, Block.end_offset. intros; lia.
Qed.

(** No two consecutive separated blocks are flagged. *)
Lemma check_overlapped_blocks_separated (blocks : list Block.t) :
  StronglySorted before blocks -> _check_overlapped_blocks blocks = [].
Proof.
  intros Hsorted.
  destruct (_check_overlapped_blocks blocks) as [|[cur next] t] eqn:E;
    [done|].
  assert ((cur, next) ∈ _check_overlapped_blocks blocks) as Hin
    by (rewrite E; left).
  apply check_overlapped_blocks_iff in Hin as (i & Hc & Hn & Hgt).
  assert (before cur next) as Hb
    by (apply (StronglySorted_lookup_lt _ blocks i (S i)); auto with lia).
  unfold before, Block.last_offset, Block.end_offset in *. lia.
Qed.

(** The not-used blocks of sorted used blocks of non-negative sizes are
    separated, so the overlap check finds nothing in them. *)
Lemma not_used_blocks_separated (self : ELFFile.t)
    (header_raw : gmap atom value) (sections : list Section.t)
    (used gaps : list Block.t) :
  StronglySorted (key_le Block.start_offset) used ->
  Forall (fun b => 0 <= Block.size b) used ->
  _get_not_used_blocks self header_raw sections (Some used) = Ok gaps ->
  StronglySorted before gaps /\ _check_overlapped_blocks gaps = [].
Proof.
  intros Hsorted Hsizes Hgaps.
  cut (StronglySorted before gaps).
  { intros H. split; [done|]. by apply check_overlapped_blocks_separated. }
  unfold _get_not_used_blocks in Hgaps.
  destruct used as [|cur rest]; [discriminate|].
  destruct (last (cur :: rest)) as [l|] eqn:Hlast; [|discriminate].
  destruct (gaps_between_separated self cur rest Hsorted Hsizes)
    as [Hbetween Hall].
  set (between := if 1 <? len (cur :: rest)
                  then flat_map (gap_after self (cur :: rest))
                         (seq 0 (length (cur :: rest) - 1))
                  else []) in Hgaps.
  assert (StronglySorted before between
          /\ Forall (fun g => 0 < Block.size g
                              /\ Block.end_offset g <= Block.start_offset l)
               between) as [Hb Hbl].
  { unfold between. destruct (1 <? len (cur :: rest)).
    - cbn [length]. rewrite Nat.sub_succ, Nat.sub_0_r. split; [done|].
      eapply Forall_impl; [exact Hall|]. simpl.
      intros g (? & _ & Hend). split; [done|]. by apply Hend.
    - split; constructor. }
  assert (0 <= Block.size l) as Hl.
  { rewrite Forall_forall in Hsizes. apply Hsizes.
    apply last_Some in Hlast as [front ->]. set_solver. }
  destruct (Z.ltb_spec (Block.end_offset l) (file_size self)) as [Hlt|Hge];
    injection Hgaps as <-.
  - rewrite sort_by_key_sorted.
    + apply StronglySorted_app_2; [|done|by repeat constructor].
      intros g1 g2 Hg1 ->%list_elem_of_singleton.
      rewrite Forall_forall in Hbl. destruct (Hbl g1 Hg1) as [_ Hend].
      unfold before, Block.end_offset in *. simpl. lia.
    + apply separated_sorted_by_start.
      * apply StronglySorted_app_2; [|done|by repeat constructor].
        intros g1 g2 Hg1 ->%list_elem_of_singleton.
        rewrite Forall_forall in Hbl. destruct (Hbl g1 Hg1) as [_ Hend].
        unfold before, Block.end_offset in *. simpl. lia.
      * apply Forall_app. split.
        -- eapply Forall_impl; [exact Hbl|]. by intros g [? _].
        -- repeat constructor. simpl. unfold Block.end_offset in *. lia.
  - rewrite sort_by_key_sorted; [done|].
    apply separated_sorted_by_start; [done|].
    eapply Forall_impl; [exact Hbl|]. by intros g [? _].
Qed.

Lemma used_blocks_nonneg (self : ELFFile.t) :
  nonneg_sizes self ->
  Forall (fun b => 0 <= Block.size b)
    (_get_used_blocks self (make_header_raw self)
       (ELFFile.iter_sections self)).
Proof.
  intros (Heh & Hph & Hsh & Hsecs). unfold _get_used_blocks.
  rewrite sort_by_key_perm. simpl app.
  repeat (constructor; [done|]).
  induction Hsecs as [|s l Hs _ IH]; simpl; [constructor|].
  destruct (is_dummy s); simpl; [done|]. by constructor.
Qed.

(** The not-used blocks that [read_metadata] stores never overlap. *)
Lemma read_metadata_not_used_separated (self : ELFFile.t)
    (elf : ComparableElf.t) :
  nonneg_sizes self ->
  read_metadata self = Ok elf ->
  _check_overlapped_blocks (not_used_blocks elf) = [].
Proof.
  intros Hsizes Hread. unfold read_metadata in Hread.
  destruct (_get_not_used_blocks _ _ _ _) as [gaps|] eqn:Hgaps;
    [|discriminate].
  injection Hread as <-. simpl.
  eapply not_used_blocks_separated; [| |exact Hgaps].
  - apply sort_by_key_is_sorted.
  - by apply used_blocks_nonneg.
Qed.

(** ** Reading a block *)

Lemma limits :
  INT64_MAX = 9223372036854775807
  /\ INT64_MIN = -9223372036854775808
  /\ max_bytes = 9223372036854775774.
Proof. by split_and!. Qed.

(** [seek] and [read] within the limits of the model. *)
Lemma seek_read_ok (stream : list byte) (offset size : Z) :
  0 <= offset <= INT64_MAX -> 0 <= size <= max_bytes ->
  seek_read stream offset size
  = Ok (take (Z.to_nat size) (drop (Z.to_nat offset) stream)).
Proof.
  intros Hoffset Hsize. unfold seek_read.
  destruct limits as (Hmax & Hmin & Hbytes).
  destruct (Z.ltb_spec offset INT64_MIN); [lia|].
  destruct (Z.ltb_spec INT64_MAX offset); [lia|].
  destruct (Z.ltb_spec offset 0); [lia|].
  destruct (Z.ltb_spec size INT64_MIN); [lia|].
  destruct (Z.ltb_spec max_bytes size); [lia|].
  destruct (Z.ltb_spec size (-1)); [lia|].
  destruct (Z.eqb_spec size (-1)); [lia|]. done.
Qed.

(** C7, as the code has it.  Reading the data of a block whose start offset
    and size are non-negative and at most the length of the file (a file
    that a [bytes] object can hold) never fails: it returns the bytes of
    the stream from [start_offset] on, at most [size] of them.  These are
    exactly [size] bytes when the block lies within the file, and fewer,
    with no error, when [start_offset + size] exceeds the length of the
    file. *)
Theorem block_data_reads_what_is_there (b : Block.t) :
  0 <= Block.start_offset b <= file_size (Block.elf b) ->
  0 <= Block.size b <= file_size (Block.elf b) ->
  file_size (Block.elf b) <= max_bytes ->
  let stream := ELFFile.stream (Block.elf b) in
  exists bytes,
    Block.data b = Ok bytes
    /\ bytes = take (Z.to_nat (Block.size b))
                 (drop (Z.to_nat (Block.start_offset b)) stream)
    /\ len bytes = Z.min (Block.size b) (len stream - Block.start_offset b)
    /\ (Block.end_offset b <= len stream -> len bytes = Block.size b)
    /\ (len stream < Block.end_offset b -> len bytes < Block.size b).
Proof.
  intros Hstart Hsize Hfile stream. unfold Block.data. subst stream.
  unfold file_size in Hstart, Hsize, Hfile.
  rewrite seek_read_ok by (destruct limits as (? & ? & ?); lia).
  eexists. split; [reflexivity|]. split; [reflexivity|].
  unfold len, Block.end_offset in *. rewrite length_take, length_drop.
  revert Hstart Hsize Hfile.
  generalize (length (ELFFile.stream (Block.elf b))).
  intros n Hstart Hsize Hfile. split_and!; lia.
Qed.

(** The theorem at a block of ten bytes that starts four bytes before the
    end of [tables_file]. *)
Lemma block_data_reads_what_is_there_witness :
  exists bytes,
    Block.data (Block.init 196 10 BlockType.SECTION tables_file None)
    = Ok bytes
    /\ len bytes = 4.
Proof.
  destruct (block_data_reads_what_is_there
              (Block.init 196 10 BlockType.SECTION tables_file None))
    as (bytes & Hdata & _ & Hlen & _);
    [by vm_compute; split; intros [=]..|by vm_compute; intros [=]|].
  exists bytes. split; [exact Hdata|]. rewrite Hlen. reflexivity.
Defined.

(** C7 as stated fails: a block whose [start_offset + size] exceeds the
    length of the file is read without an error, and comes back short. *)
Lemma block_data_short_read_succeeds :
  let b := Block.init 196 10 BlockType.SECTION tables_file None in
  file_size tables_file < Block.end_offset b
  /\ Block.data b = Ok [x00; x00; x00; x00].
Proof. split; reflexivity. Qed.

(** ** The report on blocks *)

Lemma read_metadata_tables : read_metadata tables_file = Ok tables_elf.
Proof. reflexivity. Qed.

Lemma read_metadata_tables' : read_metadata tables_file' = Ok tables_elf'.
Proof. reflexivity. Qed.

Lemma read_metadata_overlap : read_metadata overlap_file = Ok overlap_elf.
Proof. reflexivity. Qed.

Lemma compare_blocks_overlaps (self other : ComparableElf.t) (h h' : heap)
    (r : AllBlocksDiff.t) :
  _compare_blocks self other h = (h', Ok r) ->
  AllBlocksDiff.left_overlaps_in_used r
  = _check_overlapped_blocks (not_used_blocks self)
  /\ AllBlocksDiff.right_overlaps_in_used r
     = _check_overlapped_blocks (not_used_blocks other).
Proof.
  unfold _compare_blocks, bind, ret.
  destruct (_ h) as [h1 [c|e]]; [|discriminate].
  by intros [= _ <-].
Qed.

(** Whatever the two files, with the unsigned sizes a parser reads, a
    report never holds an overlap: the overlap lists are those of the
    not-used blocks, which are separated. *)
Lemma compare_to_never_reports_overlaps (left right : ELFFile.t)
    (self other : ComparableElf.t) (h : heap) :
  nonneg_sizes left -> nonneg_sizes right ->
  read_metadata left = Ok self -> read_metadata right = Ok other ->
  match reported_overlaps (compare_to self other h) with
  | Ok overlaps => overlaps = ([], [])
  | Raise _ => True
  end.
Proof.
  intros Hl Hr Hself Hother. unfold compare_to, bind, lift, ret.
  destruct (_compare_sections self other) as [secs|e]; [|done].
  destruct (_compare_blocks self other h) as [h' [r|e]] eqn:Hblocks;
    [|done].
  apply compare_blocks_overlaps in Hblocks as [Hleft Hright]. simpl.
  rewrite Hleft, Hright.
  by rewrite (read_metadata_not_used_separated left self),
    (read_metadata_not_used_separated right other).
Qed.

(** C1.  [_compare_blocks] passes the lists of not-used blocks to
    [_check_overlapped_blocks].  The file [overlap_file] has the used
    blocks [[0,10)] and [[5,15)], which the check flags on its used blocks;
    the report of comparing it with [tables_file] has no overlap on either
    side, whichever file is on the left. *)
Theorem compare_to_overlap_not_reported :
  read_metadata overlap_file = Ok overlap_elf
  /\ read_metadata tables_file = Ok tables_elf
  /\ _check_overlapped_blocks (used_blocks overlap_elf)
     = [(header_block overlap_file, section_block overlap_file overlap_text)]
  /\ reported_overlaps (compare_to overlap_elf tables_elf heap_at_import)
     = Ok ([], [])
  /\ reported_overlaps (compare_to tables_elf overlap_elf heap_at_import)
     = Ok ([], []).
Proof.
  split_and!; [reflexivity..| |]; vm_compute; reflexivity.
Qed.

(** C6.  The list behind [diffs_in_not_used] is shared by all reports.
    Comparing [tables_file] with itself reports no differing not-used block
    in a fresh interpreter, and one after [tables_file] was compared with
    [tables_file']; comparing the latter pair a second time reports their
    one difference twice. *)
Theorem compare_to_leaks_diffs :
  read_metadata tables_file = Ok tables_elf
  /\ read_metadata tables_file' = Ok tables_elf'
  /\ reported_diffs (compare_to tables_elf tables_elf heap_at_import) = Ok []
  /\ reported_diffs (compare_to tables_elf tables_elf' heap_at_import)
     = Ok [tables_diff]
  /\ reported_diffs
       (compare_to tables_elf tables_elf
          (compare_to tables_elf tables_elf' heap_at_import).1)
     = Ok [tables_diff]
  /\ reported_diffs
       (compare_to tables_elf tables_elf'
          (compare_to tables_elf tables_elf' heap_at_import).1)
     = Ok [tables_diff; tables_diff].
Proof.
  split_and!; [reflexivity..| | | |]; reflexivity.
Qed.

(** ** Sections *)

Lemma section_diff_has_changes (headers : DictDiff.t diff_value)
    (len_1 len_2 diff_index : Z) :
  SectionDiff.has_changes
    (SectionDiff.mk
       (if DictDiff.has_changes headers then Some headers else None)
       (if negb (len_1 =? len_2) then Some (len_1, len_2) else None)
       diff_index) = true
  <-> DictDiff.has_changes headers = true
      \/ len_1 <> len_2 \/ diff_index <> -1.
Proof.
  unfold SectionDiff.has_changes; simpl.
  destruct (DictDiff.has_changes headers);
    destruct (Z.eqb_spec len_1 len_2);
    destruct (Z.eqb_spec diff_index (-1)); simpl;
    repeat (rewrite bool_decide_eq_true_2 by done);
    repeat (rewrite bool_decide_eq_false_2 by done); simpl;
    naive_solver.
Qed.

Section compare_sections.

Variables sections_dict_1 sections_dict_2 : gmap atom Section.t.

(** One iteration adds its section name when the two sections differ. *)
Lemma compare_section_spec (modified_sections : gmap atom SectionDiff.t)
    (section_name : atom) (section_1 section_2 : Section.t) :
  sections_dict_1 !! section_name = Some section_1 ->
  sections_dict_2 !! section_name = Some section_2 ->
  exists modified_sections',
    compare_section sections_dict_1 sections_dict_2 modified_sections
      section_name = Ok modified_sections'
    /\ forall k,
         k ∈ dom modified_sections' <->
         k ∈ dom modified_sections
         \/ (k = section_name /\ section_modified section_1 section_2).
Proof.
  intros H1 H2. unfold compare_section, getitem. rewrite H1, H2.
  cbn [rbind]. fold (header_diff section_1 section_2).
  pose proof (section_diff_has_changes
                (header_diff section_1 section_2)
                (len (Section.data section_1))
                (len (Section.data section_2))
                (locate_array_diff (Section.data section_1)
                   (Section.data section_2))) as Hiff.
  fold (section_modified section_1 section_2) in Hiff.
  destruct (SectionDiff.has_changes _) eqn:Hd;
    (eexists; split; [reflexivity|]); intros k.
  - rewrite dom_insert, elem_of_union, elem_of_singleton.
    pose proof (proj1 Hiff eq_refl) as Hmod. clear Hiff Hd.
    split; [intros [->|?]|intros [?|[? _]]]; auto.
  - split; [by left|].
    intros [?|[_ Hm]]; [done|]. apply Hiff in Hm. discriminate.
Qed.

(** The loop over the common names returns, with the names of the sections
    that differ added. *)
Lemma for_each_compare_section (names : list atom)
    (modified_sections : gmap atom SectionDiff.t) :
  (forall k, k ∈ names ->
             is_Some (sections_dict_1 !! k) /\ is_Some (sections_dict_2 !! k)) ->
  exists modified_sections',
    for_each (compare_section sections_dict_1 sections_dict_2) names
      modified_sections = Ok modified_sections'
    /\ forall k,
         k ∈ dom modified_sections' <->
         k ∈ dom modified_sections
         \/ (k ∈ names /\
             exists section_1 section_2,
               sections_dict_1 !! k = Some section_1 /\
               sections_dict_2 !! k = Some section_2 /\
               section_modified section_1 section_2).
Proof.
  revert modified_sections.
  induction names as [|name names IH]; intros modified_sections Hcommon.
  - eexists. split; [reflexivity|]. intros k. rewrite elem_of_nil.
    naive_solver.
  - destruct (Hcommon name) as [[s1 H1] [s2 H2]]; [by left|].
    destruct (compare_section_spec modified_sections name s1 s2 H1 H2)
      as (m1 & Hm1 & Hdom1).
    destruct (IH m1) as (m2 & Hm2 & Hdom2).
    { intros k Hk. apply Hcommon. by right. }
    exists m2. simpl. rewrite Hm1. simpl. split; [exact Hm2|].
    intros k. rewrite Hdom2, Hdom1, elem_of_cons. split.
    + intros [[?|[-> ?]]|[? ?]]; [by left|right..].
      * split; [by left|]. by exists s1, s2.
      * split; [by right|done].
    + intros [?|[[->|?] (t1 & t2 & Ht1 & Ht2 & Hm)]].
      * by left; left.
      * left; right. split; [done|]. congruence.
      * right. split; [done|]. by exists t1, t2.
Qed.

End compare_sections.

Lemma read_metadata_sections :
  read_metadata sections_file = Ok sections_elf
  /\ read_metadata sections_file' = Ok sections_elf'.
Proof. split; reflexivity. Qed.

(** The whole scenario: [.new] is new on the right, [.data] is modified
    with its first difference at index 3 and nothing else, [.text] is not
    reported. *)
Lemma compare_sections_scenario :
  _compare_sections sections_elf sections_elf'
  = Ok (AllSectionsDiff.mk ∅ {[ Str ".new" ]}
          {[ Str ".data" := SectionDiff.mk None None 3 ]}).
Proof. vm_compute. reflexivity. Qed.

(** * Further properties of the code *)

(** ** [locate_array_diff]: the longest common prefix *)

Lemma same_at (a b : list byte) (i : nat) :
  (i < Nat.min (length a) (length b))%nat ->
  negb (Byte.eqb (byte_at a i) (byte_at b i)) = false -> a !! i = b !! i.
Proof.
  intros Hi Hp. rewrite !byte_at_lookup by lia.
  apply negb_false_iff, Byte.byte_dec_bl in Hp. by rewrite Hp.
Qed.

Lemma locate_array_diff_cases (a b : list byte) :
  (exists i : nat,
      (i < Nat.min (length a) (length b))%nat
      /\ a !! i <> b !! i
      /\ (forall j, (j < i)%nat -> a !! j = b !! j)
      /\ locate_array_diff a b = Z.of_nat i)
  \/ ((forall i, (i < Nat.min (length a) (length b))%nat -> a !! i = b !! i)
      /\ locate_array_diff a b
         = if decide (length a = length b) then -1
           else Z.of_nat (Nat.min (length a) (length b))).
Proof.
  destruct (List.find
              (fun i => negb (Byte.eqb (byte_at a i) (byte_at b i)))
              (seq 0 (Nat.min (length a) (length b)))) as [i|] eqn:Hfind.
  - left. exists i.
    apply find_seq_Some in Hfind as (Hi & Hp & Hbefore).
    assert (forall j, (j < i)%nat -> a !! j = b !! j) as Hsame.
    { intros j Hj. apply same_at; [lia|]. apply Hbefore. lia. }
    split_and!; [lia|apply differ_at; [lia|done]|done|].
    apply locate_array_diff_first; [lia|apply differ_at; [lia|done]|done].
  - right.
    assert (forall i, (i < Nat.min (length a) (length b))%nat ->
                      a !! i = b !! i) as Hsame.
    { intros i Hi. apply same_at; [lia|].
      apply (find_seq_None _ _ _ Hfind). lia. }
    split; [done|]. by apply locate_array_diff_prefix.
Qed.

Lemma prefix_equal (a b : list byte) (n : nat) :
  (forall j, (j < n)%nat -> a !! j = b !! j) -> take n a = take n b.
Proof.
  intros Hsame. apply list_eq. intros j.
  destruct (decide (j < n)%nat).
  - rewrite !lookup_take_lt by done. by apply Hsame.
  - rewrite !lookup_take_ge by lia. done.
Qed.

Lemma locate_array_diff_minus_one (a b : list byte) :
  locate_array_diff a b = -1 <-> a = b.
Proof.
  split.
    + destruct (locate_array_diff_cases a b)
        as [(i & _ & _ & _ & ->)|[Hsame ->]]; [lia|].
      destruct (decide (length a = length b)) as [Hlen|]; [|lia].
      intros _. apply list_eq. intros i.
      destruct (decide (i < length a)%nat).
      * apply Hsame. lia.
      * rewrite !lookup_ge_None_2 by lia. done.
    + intros ->. rewrite locate_array_diff_prefix by done.
      by destruct (decide _).
Qed.

(** X1.  [locate_array_diff] returns [-1] exactly when the two arrays are
    equal, and does not depend on the order of its arguments. *)
Theorem locate_array_diff_equal_iff (a b : list byte) :
  (locate_array_diff a b = -1 <-> a = b)
  /\ locate_array_diff a b = locate_array_diff b a.
Proof.
  split; [apply locate_array_diff_minus_one|].
  - destruct (locate_array_diff_cases a b)
      as [(i & Hi & Hne & Hbefore & ->)|[Hsame ->]].
    + symmetry. apply locate_array_diff_first; [lia|done|].
      intros j Hj. symmetry. by apply Hbefore.
    + rewrite locate_array_diff_prefix.
      * rewrite (Nat.min_comm (length b)).
        destruct (decide (length a = length b)),
          (decide (length b = length a)); congruence.
      * intros i Hi. symmetry. apply Hsame. lia.
Qed.

(** X2.  When the arrays differ, the result [r] is the length of their
    longest common prefix: it is within [0 .. min (len a) (len b)], the
    first [r] bytes agree, and position [r] differs (a different byte, or
    the end of exactly one array). *)
Theorem locate_array_diff_common_prefix (a b : list byte) :
  let r := locate_array_diff a b in
  (r = -1 /\ a = b)
  \/ (0 <= r <= Z.of_nat (Nat.min (length a) (length b))
      /\ take (Z.to_nat r) a = take (Z.to_nat r) b
      /\ a !! Z.to_nat r <> b !! Z.to_nat r).
Proof.
  intros r. subst r.
  destruct (locate_array_diff_cases a b)
    as [(i & Hi & Hne & Hbefore & ->)|[Hsame Hr]].
  - right. rewrite Nat2Z.id. split_and!; [lia..| |done].
    by apply prefix_equal.
  - destruct (decide (length a = length b)) as [Hlen|Hlen].
    + left. split; [done|]. apply locate_array_diff_minus_one.
      by rewrite Hr.
    + right. rewrite Hr, Nat2Z.id. split_and!; [lia..| |].
      * by apply prefix_equal.
      * destruct (Nat.min_spec (length a) (length b)) as [[? ->]|[? ->]].
        -- rewrite (lookup_ge_None_2 a) by lia.
           destruct (lookup_lt_is_Some_2 b (length a)) as [x ->]; [lia|done].
        -- rewrite (lookup_ge_None_2 b) by lia.
           destruct (lookup_lt_is_Some_2 a (length b)) as [x ->]; [lia|done].
Qed.

(** ** [compare_dict]: what the entries say *)

Lemma has_changes_false {M : Type} (r : DictDiff.t M) :
  DictDiff.has_changes r = false <->
  DictDiff.left_new r = ∅ /\ DictDiff.right_new r = ∅
  /\ dom (DictDiff.modified r) = ∅.
Proof.
  unfold DictDiff.has_changes.
  rewrite !orb_false_iff, !negb_false_iff, !bool_decide_eq_true. tauto.
Qed.

Section compare_dict_entries.

Context {V M : Type}.
Variable modified_value : V -> V -> M.
Variables d1 d2 : gmap atom V.
Variables include_modified include_same : bool.
Variable compare_function : V -> V -> bool.

Let r :=
  compare_dict_with modified_value d1 d2 include_modified include_same
    compare_function.

Lemma compare_dict_with_modified_lookup (k : atom) :
  DictDiff.modified r !! k =
    match d1 !! k, d2 !! k with
    | Some v1, Some v2 =>
        if compare_function v1 v2 then None
        else if include_modified then Some (modified_value v1 v2) else None
    | _, _ => None
    end.
Proof.
  unfold r, compare_dict_with; simpl. rewrite lookup_omap, lookup_merge.
  destruct (d1 !! k) as [v1|], (d2 !! k) as [v2|]; simpl; try done.
  by destruct (compare_function v1 v2), include_same, include_modified.
Qed.

(** When [compare_function] decides equality and modified keys are kept,
    a diff without changes means equal dictionaries. *)
Lemma compare_dict_with_no_changes :
  (forall v1 v2, compare_function v1 v2 = true <-> v1 = v2) ->
  include_modified = true ->
  DictDiff.has_changes r = false <-> d1 = d2.
Proof.
  intros Hcf Him. rewrite has_changes_false. split.
  - intros (Hleft & Hright & Hmod). apply map_eq. intros k.
    assert (k ∉ DictDiff.left_new r) as Hl by (rewrite Hleft; set_solver).
    assert (k ∉ DictDiff.right_new r) as Hr by (rewrite Hright; set_solver).
    assert (DictDiff.modified r !! k = None) as Hk.
    { apply not_elem_of_dom. rewrite Hmod. set_solver. }
    unfold r in Hl, Hr. rewrite compare_dict_with_left_new in Hl.
    rewrite compare_dict_with_right_new in Hr.
    rewrite elem_of_difference, !elem_of_dom in Hl, Hr.
    rewrite compare_dict_with_modified_lookup, Him in Hk.
    destruct (d1 !! k) as [v1|] eqn:H1, (d2 !! k) as [v2|] eqn:H2.
    + destruct (compare_function v1 v2) eqn:Hc; [|done].
      apply Hcf in Hc. by subst.
    + destruct Hl. split; [by eexists|]. by intros [? [=]].
    + destruct Hr. split; [by eexists|]. by intros [? [=]].
    + done.
  - intros Heq. split_and!.
    + unfold r. rewrite compare_dict_with_left_new, Heq. set_solver.
    + unfold r. rewrite compare_dict_with_right_new, Heq. set_solver.
    + apply set_eq. intros k. split; [|set_solver].
      intros [m Hm]%elem_of_dom.
      rewrite compare_dict_with_modified_lookup, Heq in Hm.
      destruct (d2 !! k) as [v|]; [|done].
      by rewrite (proj2 (Hcf v v) eq_refl) in Hm.
Qed.

End compare_dict_entries.

Lemma operator_eq_spec (v1 v2 : value) : operator_eq v1 v2 = true <-> v1 = v2.
Proof. unfold operator_eq. apply bool_decide_eq_true. Qed.

(** X3.  With the default comparison and [include_modified] set, the diff
    of two dictionaries has no changes if and only if the dictionaries are
    equal, whatever [deep] and [include_same] are. *)
Theorem compare_dict_no_changes_iff (d1 d2 : gmap atom value)
    (deep include_same : bool) :
  DictDiff.has_changes
    (compare_dict d1 d2 deep true include_same operator_eq) = false
  <-> d1 = d2.
Proof.
  unfold compare_dict. apply compare_dict_with_no_changes; [|done].
  apply operator_eq_spec.
Qed.

Lemma modified_value_unfold (deep include_same : bool) (v1 v2 : value) :
  modified_value deep include_same v1 v2 =
    match deep, v1, v2 with
    | true, Dict m1, Dict m2 =>
        Nested (compare_dict m1 m2 deep true include_same operator_eq)
    | _, _, _ => Pair v1 v2
    end.
Proof. by destruct deep, v1, v2. Qed.

(** X4.  The entries of a diff.  A key is in [same] when both
    dictionaries hold it with values that [compare_function] accepts and
    [include_same] is set.  It is in [modified] when the values are not
    accepted and [include_modified] is set, and its entry is the pair of the
    two values, or, under [deep] when both are mappings, their diff computed
    with [include_modified] on and the default comparison, whatever the outer
    call was given. *)
Theorem compare_dict_entries (d1 d2 : gmap atom value)
    (deep include_modified include_same : bool)
    (compare_function : value -> value -> bool) (k : atom) :
  let r := compare_dict d1 d2 deep include_modified include_same
             compare_function in
  (k ∈ DictDiff.same r <->
   exists v1 v2, d1 !! k = Some v1 /\ d2 !! k = Some v2 /\
                 compare_function v1 v2 = true /\ include_same = true)
  /\ (forall e, DictDiff.modified r !! k = Some e <->
        exists v1 v2,
          d1 !! k = Some v1 /\ d2 !! k = Some v2 /\
          compare_function v1 v2 = false /\ include_modified = true /\
          e = match deep, v1, v2 with
              | true, Dict m1, Dict m2 =>
                  Nested (compare_dict m1 m2 deep true include_same
                            operator_eq)
              | _, _, _ => Pair v1 v2
              end).
Proof.
  intros r. split; [apply compare_dict_with_same|].
  intros e. unfold r, compare_dict.
  rewrite compare_dict_with_modified_lookup.
  destruct (d1 !! k) as [v1|], (d2 !! k) as [v2|];
    try (split; [done|by intros (? & ? & ? & ? & _)]).
  rewrite modified_value_unfold.
  destruct (compare_function v1 v2) eqn:Hc, include_modified; split;
    try done; try (intros (? & ? & [= <-] & [= <-] & ? & ? & _); congruence).
  - intros [= <-]. by exists v1, v2.
  - by intros (? & ? & [= <-] & [= <-] & _ & _ & ->).
Qed.

(** X5.  Under the default comparison a nested diff is never empty: an
    entry of [modified] that is the diff of two mappings has changes. *)
Theorem compare_dict_nested_has_changes (d1 d2 : gmap atom value)
    (deep include_modified include_same : bool) (k : atom)
    (d : DictDiff.t diff_value) :
  DictDiff.modified
    (compare_dict d1 d2 deep include_modified include_same operator_eq)
    !! k = Some (Nested d) ->
  DictDiff.has_changes d = true.
Proof.
  unfold compare_dict. rewrite compare_dict_with_modified_lookup.
  destruct (d1 !! k) as [v1|], (d2 !! k) as [v2|]; try done.
  destruct (operator_eq v1 v2) eqn:Hc; [done|].
  destruct include_modified; [|done].
  rewrite modified_value_unfold.
  destruct deep, v1 as [| |m1], v2 as [| |m2]; try done.
  intros [= <-]. apply not_false_is_true. intros Hno.
  apply compare_dict_with_no_changes in Hno; [|apply operator_eq_spec|done].
  subst. by rewrite (proj2 (operator_eq_spec _ _) eq_refl) in Hc.
Qed.

(** The theorem at two segment groups of type [PT_LOAD] that differ. *)
Lemma compare_dict_nested_has_changes_witness :
  exists d,
    DictDiff.modified
      (compare_dict
         {[ Str "PT_LOAD" := Dict {[ Int 0 := Atom (Int 1) ]} ]}
         {[ Str "PT_LOAD" := Dict {[ Int 64 := Atom (Int 1) ]} ]}
         true true false operator_eq)
      !! Str "PT_LOAD" = Some (Nested d)
    /\ DictDiff.has_changes d = true.
Proof.
  eexists. split; [reflexivity|].
  apply (compare_dict_nested_has_changes
           {[ Str "PT_LOAD" := Dict {[ Int 0 := Atom (Int 1) ]} ]}
           {[ Str "PT_LOAD" := Dict {[ Int 64 := Atom (Int 1) ]} ]}
           true true false (Str "PT_LOAD")).
  reflexivity.
Defined.

(** X6.  With the default comparison, swapping the two dictionaries swaps
    [left_new] and [right_new] and leaves [common_keys], [same] and the
    keys of [modified] as they are; without [deep] each modified entry is
    the swapped pair. *)
Theorem compare_dict_swap (d1 d2 : gmap atom value)
    (deep include_modified include_same : bool) :
  let r := compare_dict d1 d2 deep include_modified include_same
             operator_eq in
  let r' := compare_dict d2 d1 deep include_modified include_same
              operator_eq in
  DictDiff.left_new r' = DictDiff.right_new r
  /\ DictDiff.right_new r' = DictDiff.left_new r
  /\ DictDiff.common_keys r' = DictDiff.common_keys r
  /\ DictDiff.same r' = DictDiff.same r
  /\ dom (DictDiff.modified r') = dom (DictDiff.modified r)
  /\ (deep = false ->
      forall k v1 v2,
        DictDiff.modified r !! k = Some (Pair v1 v2) <->
        DictDiff.modified r' !! k = Some (Pair v2 v1)).
Proof.
  intros r r'. unfold r, r', compare_dict.
  assert (forall v1 v2, operator_eq v1 v2 = operator_eq v2 v1) as Hsym.
  { intros v1 v2. unfold operator_eq.
    destruct (decide (v1 = v2)) as [->|Hne].
    - done.
    - rewrite !bool_decide_eq_false_2; done. }
  split_and!.
  - reflexivity.
  - reflexivity.
  - rewrite !compare_dict_with_common. set_solver.
  - apply set_eq. intros k. rewrite !compare_dict_with_same. split;
      intros (v1 & v2 & H1 & H2 & Hc & His); exists v2, v1;
      by rewrite Hsym.
  - apply set_eq. intros k. rewrite !compare_dict_with_modified. split;
      intros (v1 & v2 & H1 & H2 & Hc & His); exists v2, v1;
      by rewrite Hsym.
  - intros -> k v1 v2. rewrite !compare_dict_with_modified_lookup.
    destruct (d1 !! k) as [w1|], (d2 !! k) as [w2|]; try done.
    rewrite (Hsym w2 w1).
    destruct (operator_eq w1 w2), include_modified; try done.
    rewrite !modified_value_unfold. split; by intros [= -> ->].
Qed.

(** ** [_group_segments] and [_compare_segments] *)

(** [result[type_][offset]], when both lookups succeed. *)
Lemma group_segments_snoc (segments : list Segment.t) (segm : Segment.t)
    (t off : atom) :
  _group_segments (segments ++ [segm]) !! t ≫= (fun g => g !! off)
  = if decide (Segment.p_type segm = t
               /\ Int (Segment.p_offset segm) = off)
    then Some (Dict (Segment.header segm))
    else _group_segments segments !! t ≫= (fun g => g !! off).
Proof.
  unfold _group_segments. rewrite foldl_app. simpl.
  match goal with |- context [foldl ?f ∅ segments] =>
    generalize (foldl f ∅ segments) end.
  intros m. destruct (m !! Segment.p_type segm) as [g|] eqn:Hg.
  - destruct (decide (Segment.p_type segm = t)) as [<-|Hne].
    + rewrite lookup_insert_eq, Hg. simpl.
      destruct (decide (Int (Segment.p_offset segm) = off)) as [<-|Hoff].
      * rewrite lookup_insert_eq. by rewrite decide_True.
      * rewrite lookup_insert_ne by done. by rewrite decide_False by tauto.
    + rewrite lookup_insert_ne by done. by rewrite decide_False by tauto.
  - destruct (decide (Segment.p_type segm = t)) as [<-|Hne].
    + rewrite lookup_insert_eq, Hg. simpl.
      destruct (decide (Int (Segment.p_offset segm) = off)) as [<-|Hoff].
      * rewrite lookup_singleton_eq. by rewrite decide_True.
      * rewrite lookup_singleton_ne by done. by rewrite decide_False by tauto.
    + rewrite lookup_insert_ne by done. by rewrite decide_False by tauto.
Qed.

Lemma group_segments_group_snoc (segments : list Segment.t)
    (segm : Segment.t) (t : atom) :
  is_Some (_group_segments (segments ++ [segm]) !! t) <->
  Segment.p_type segm = t \/ is_Some (_group_segments segments !! t).
Proof.
  unfold _group_segments. rewrite foldl_app. simpl.
  match goal with |- context [foldl ?f ∅ segments] =>
    generalize (foldl f ∅ segments) end.
  intros m.
  destruct (m !! Segment.p_type segm) as [g|] eqn:Hg;
    (destruct (decide (Segment.p_type segm = t)) as [<-|Hne];
     [rewrite lookup_insert_eq; split; [by left|by eexists]
     |rewrite lookup_insert_ne by done; tauto]).
Qed.

(** X7.  [_group_segments] files each segment header under its type and
    offset: [result[t][off]] is the header of the last segment of the list
    with type [t] and offset [off] (an earlier one with the same type and
    offset is overwritten), and [t] is a key exactly when some segment has
    that type. *)
Theorem group_segments_lookup (segments : list Segment.t) (t off : atom) :
  _group_segments segments !! t ≫= (fun g => g !! off)
  = (fun segm => Dict (Segment.header segm))
      <$> last (filter (fun segm => Segment.p_type segm = t
                                    /\ Int (Segment.p_offset segm) = off)
                       segments)
  /\ (is_Some (_group_segments segments !! t) <->
      exists segm, segm ∈ segments /\ Segment.p_type segm = t).
Proof.
  induction segments as [|segm segments [IH1 IH2]] using rev_ind.
  - split; [done|]. split; [by intros [? [=]]|].
    by intros (? & ?%elem_of_nil & _).
  - split.
    + rewrite group_segments_snoc, filter_app, filter_cons, filter_nil.
      destruct (decide _) as [Hp|Hp].
      * by rewrite last_snoc.
      * by rewrite app_nil_r.
    + rewrite group_segments_group_snoc, IH2. split.
      * intros [<-|(s & Hs & <-)]; [exists segm|exists s]; set_solver.
      * intros (s & Hin & <-). apply elem_of_app in Hin as [Hs|Hs].
        -- right. by exists s.
        -- left. apply list_elem_of_singleton in Hs. by subst.
Qed.

Lemma fmap_Dict_inj (m1 m2 : gmap atom (gmap atom value)) :
  Dict <$> m1 = Dict <$> m2 -> m1 = m2.
Proof.
  intros Heq. apply map_eq. intros k.
  apply (f_equal (fun m : gmap atom value => m !! k)) in Heq.
  rewrite !lookup_fmap in Heq.
  destruct (m1 !! k), (m2 !! k); simpl in Heq; congruence.
Qed.

(** X8.  The segment diff has no changes if and only if the two files
    group their segments into the same table of headers by type and
    offset. *)
Theorem compare_segments_no_changes_iff (self other : ComparableElf.t) :
  DictDiff.has_changes (_compare_segments self other) = false
  <-> _group_segments (segments self) = _group_segments (segments other).
Proof.
  unfold _compare_segments, compare_dict.
  rewrite compare_dict_with_no_changes; [|apply operator_eq_spec|done].
  split; [apply fmap_Dict_inj|by intros ->].
Qed.

(** X9.  A segment type that both files have, with groups that differ, is
    reported under [modified] as the diff of the two groups: its
    [left_new] and [right_new] are the offsets that only one file has, and
    an offset of both files whose headers differ holds the diff of the two
    headers, field by field. *)
Theorem compare_segments_group_diff (self other : ComparableElf.t)
    (t : atom) (g1 g2 : gmap atom value) :
  _group_segments (segments self) !! t = Some g1 ->
  _group_segments (segments other) !! t = Some g2 ->
  g1 <> g2 ->
  exists d,
    DictDiff.modified (_compare_segments self other) !! t = Some (Nested d)
    /\ DictDiff.left_new d = dom g1 ∖ dom g2
    /\ DictDiff.right_new d = dom g2 ∖ dom g1
    /\ forall off h1 h2,
         g1 !! off = Some (Dict h1) -> g2 !! off = Some (Dict h2) ->
         h1 <> h2 ->
         DictDiff.modified d !! off
         = Some (Nested (compare_dict h1 h2 true true false operator_eq)).
Proof.
  intros H1 H2 Hne. unfold _compare_segments, compare_dict.
  rewrite compare_dict_with_modified_lookup, !lookup_fmap, H1, H2.
  cbn [fmap option_fmap option_map]. rewrite modified_value_unfold.
  assert (operator_eq (Dict g1) (Dict g2) = false) as ->.
  { apply not_true_is_false. rewrite operator_eq_spec. congruence. }
  eexists. split; [reflexivity|]. split; [reflexivity|].
  split; [reflexivity|].
  intros off h1 h2 Hh1 Hh2 Hh. unfold compare_dict.
  rewrite compare_dict_with_modified_lookup, Hh1, Hh2.
  rewrite modified_value_unfold.
  assert (operator_eq (Dict h1) (Dict h2) = false) as ->; [|done].
  apply not_true_is_false. rewrite operator_eq_spec. congruence.
Qed.

Lemma read_metadata_segments :
  read_metadata segments_file = Ok segments_elf
  /\ read_metadata segments_file' = Ok segments_elf'.
Proof. split; reflexivity. Qed.

(** The theorem at [segments_elf] and [segments_elf'], whose [PT_LOAD]
    segments at offset 0 differ in size. *)
Lemma compare_segments_group_diff_witness :
  exists d,
    DictDiff.modified (_compare_segments segments_elf segments_elf')
      !! Str "PT_LOAD" = Some (Nested d)
    /\ DictDiff.modified d !! Int 0
       = Some (Nested (compare_dict
                         (Segment.header (load_segment 0 200))
                         (Segment.header (load_segment 0 184))
                         true true false operator_eq)).
Proof.
  assert ({[ Int 0 := Dict (Segment.header (load_segment 0 200)) ]}
          <> ({[ Int 0 := Dict (Segment.header (load_segment 0 184)) ]}
              : gmap atom value)) as Hne.
  { intros H.
    apply (f_equal (fun g : gmap atom value =>
                      bool_decide (g !! Int 0
                                   = Some (Dict (Segment.header
                                                   (load_segment 0 200))))))
      in H.
    vm_compute in H. discriminate H. }
  destruct (compare_segments_group_diff segments_elf segments_elf'
              (Str "PT_LOAD") _ _ eq_refl eq_refl Hne)
    as (d & Hd & _ & _ & Hoff).
  exists d. split; [exact Hd|].
  apply Hoff; [reflexivity..|].
  intros H.
  apply (f_equal (fun g : gmap atom value =>
                    bool_decide (g !! Str "p_filesz"
                                 = Some (Atom (Int 200))))) in H.
  vm_compute in H. discriminate H.
Defined.

(** ** Used blocks, exactly *)

Lemma is_dummy_false (section : Section.t) :
  is_dummy section = false <->
  Section.sh_size section <> 0
  /\ Section.is_null section = false
  /\ Section.sh_type section <> Str "SHT_NOBITS"
  /\ Section.sh_type section <> Str "SHT_NULL".
Proof.
  unfold is_dummy.
  rewrite !orb_false_iff, Z.eqb_neq, !bool_decide_eq_false. tauto.
Qed.

(** X10.  The used blocks of a file are the three table blocks and one
    block for every section that has a non-zero size, is not the null
    section and is neither [SHT_NOBITS] nor [SHT_NULL], and nothing else;
    the skipped sections leave no block. *)
Theorem used_blocks_exactly (self : ELFFile.t) (b : Block.t) :
  let used :=
    _get_used_blocks self (make_header_raw self)
      (ELFFile.iter_sections self) in
  (b ∈ used <->
   b = header_block self
   \/ b = program_header_table_block self
   \/ b = section_header_table_block self
   \/ exists section,
        section ∈ ELFFile.iter_sections self
        /\ Section.sh_size section <> 0
        /\ Section.is_null section = false
        /\ Section.sh_type section <> Str "SHT_NOBITS"
        /\ Section.sh_type section <> Str "SHT_NULL"
        /\ b = section_block self section)
  /\ length used
     = (3 + length (filter (fun s => is_dummy s = false)
                           (ELFFile.iter_sections self)))%nat.
Proof.
  intros used. unfold used, _get_used_blocks. split.
  - rewrite elem_of_sort_by_key, elem_of_app, !elem_of_cons, elem_of_nil.
    rewrite list_elem_of_In, in_flat_map.
    split.
    + intros [[->|[->|[->|[]]]]|(s & Hs & Hb)]; [tauto..|].
      do 3 right. exists s. rewrite list_elem_of_In.
      destruct (is_dummy s) eqn:Hd; [destruct Hb|].
      apply is_dummy_false in Hd. destruct Hb as [<-|[]]. tauto.
    + intros [->|[->|[->|(s & Hs & H1 & H2 & H3 & H4 & ->)]]];
        [left; tauto..|].
      right. exists s. rewrite <- list_elem_of_In. split; [done|].
      rewrite (proj2 (is_dummy_false s)) by done. left. done.
  - rewrite length_sort_by_key, length_app. simpl. do 3 f_equal.
    clear used.
    induction (ELFFile.iter_sections self) as [|s l IH]; simpl; [done|].
    rewrite length_app, IH, filter_cons.
    by destruct (is_dummy s).
Qed.

(** ** Overlap detection: what a flag means *)

(** X11.  In a list sorted by start offset, a flagged pair is a pair of
    adjacent blocks of which the first reaches at least two bytes into the
    second's start (so the blocks do overlap); and when no pair is flagged,
    any two blocks of the list, adjacent or not, share at most one byte: a
    block ends at most one byte after a later block starts. *)
Theorem check_overlapped_blocks_meaning (used : list Block.t) :
  StronglySorted (key_le Block.start_offset) used ->
  (forall cur next,
      (cur, next) ∈ _check_overlapped_blocks used ->
      exists i, used !! i = Some cur /\ used !! S i = Some next
                /\ Block.start_offset cur <= Block.start_offset next
                /\ Block.start_offset next + 2 <= Block.end_offset cur)
  /\ (_check_overlapped_blocks used = [] ->
      forall i j b1 b2,
        (i < j)%nat -> used !! i = Some b1 -> used !! j = Some b2 ->
        Block.end_offset b1 <= Block.start_offset b2 + 1).
Proof.
  intros Hsorted. split.
  - intros cur next (i & Hc & Hn & Hgt)%check_overlapped_blocks_iff.
    exists i. split_and!; [done..| |].
    + change (key_le Block.start_offset cur next).
      apply (StronglySorted_lookup_lt _ used i (S i)); auto with lia.
    + unfold Block.last_offset, Block.end_offset in *. lia.
  - intros Hnone i j b1 b2 Hij Hi Hj.
    destruct (lookup_lt_is_Some_2 used (S i)) as [n Hn].
    { apply lookup_lt_Some in Hj. lia. }
    assert (~ Block.last_offset b1 > Block.start_offset n) as Hnot.
    { intros Hgt.
      assert ((b1, n) ∈ _check_overlapped_blocks used) as Hin
        by (apply check_overlapped_blocks_iff; by exists i).
      rewrite Hnone in Hin. by apply elem_of_nil in Hin. }
    assert (key_le Block.start_offset n b2) as Hle.
    { destruct (decide (S i = j)) as [<-|].
      - unfold key_le. by simplify_eq.
      - apply (StronglySorted_lookup_lt _ used (S i) j); auto with lia. }
    unfold key_le, Block.last_offset, Block.end_offset in *. lia.
Qed.

(** The theorem at the used blocks of [overlap_file]. *)
Lemma check_overlapped_blocks_meaning_witness :
  exists i,
    used_blocks overlap_elf !! i = Some (header_block overlap_file)
    /\ used_blocks overlap_elf !! S i
       = Some (section_block overlap_file overlap_text).
Proof.
  assert (StronglySorted (key_le Block.start_offset)
            (used_blocks overlap_elf)) as Hsorted.
  { repeat constructor; unfold key_le; simpl; lia. }
  destruct (proj1 (check_overlapped_blocks_meaning _ Hsorted)
              (header_block overlap_file)
              (section_block overlap_file overlap_text))
    as (i & Hc & Hn & _); [left|].
  exists i. split; [exact Hc|exact Hn].
Defined.

(** ** Gaps: what they cover *)

Lemma covers_gap (self : ELFFile.t) (from to x : Z) :
  covers (gap self from to) x <-> from <= x < to.
Proof. unfold covers, gap, Block.end_offset. simpl. lia. Qed.

(** Every offset from the start of the first used block to the end of the
    file lies in a used block, in a gap between two adjacent used blocks or
    in the gap after the last one. *)
Lemma offsets_accounted (self : ELFFile.t) (x : Z) (cur : Block.t)
    (rest : list Block.t) :
  StronglySorted (key_le Block.start_offset) (cur :: rest) ->
  Block.start_offset cur <= x < file_size self ->
  (exists b, b ∈ cur :: rest /\ covers b x)
  \/ (exists i c n,
         (cur :: rest) !! i = Some c /\ (cur :: rest) !! S i = Some n
         /\ Block.end_offset c < Block.start_offset n
         /\ Block.end_offset c <= x < Block.start_offset n)
  \/ (exists l,
         last (cur :: rest) = Some l
         /\ Block.end_offset l < file_size self
         /\ Block.end_offset l <= x < file_size self).
Proof.
  revert cur. induction rest as [|next rest IH]; intros cur Hsorted Hx.
  - destruct (decide (x < Block.end_offset cur)).
    + left. exists cur. split; [left|]. unfold covers. lia.
    + right; right. exists cur. split; [done|]. lia.
  - apply StronglySorted_inv in Hsorted as [Hsorted' Hcur].
    destruct (decide (x < Block.start_offset next)) as [Hlt|Hge].
    + destruct (decide (x < Block.end_offset cur)).
      * left. exists cur. split; [left|]. unfold covers. lia.
      * right; left. exists 0%nat, cur, next. split_and!; try done; lia.
    + destruct (IH next Hsorted' ltac:(lia))
        as [(b & Hb & Hcov)|[(i & c & n & Hc & Hn & Hlt & Hin)
                             |(l & Hl & Hlt & Hin)]].
      * left. exists b. split; [by right|done].
      * right; left. by exists (S i), c, n.
      * right; right. exists l. by rewrite last_cons_cons.
Qed.

(** X12.  Gaps leave nothing out: for used blocks sorted by start offset,
    every byte offset from the start of the first used block up to the end
    of the file lies in a used block or in one of the not-used blocks
    returned. *)
Theorem not_used_blocks_cover (self : ELFFile.t)
    (header_raw : gmap atom value) (sections : list Section.t)
    (first : Block.t) (rest gaps : list Block.t) (x : Z) :
  StronglySorted (key_le Block.start_offset) (first :: rest) ->
  _get_not_used_blocks self header_raw sections (Some (first :: rest))
  = Ok gaps ->
  Block.start_offset first <= x < file_size self ->
  (exists b, b ∈ first :: rest /\ covers b x)
  \/ (exists g, g ∈ gaps /\ covers g x).
Proof.
  intros Hsorted Hgaps Hx.
  destruct (get_not_used_blocks_spec self header_raw sections (first :: rest))
    as (gaps' & Hgaps' & _ & Hin); [done|].
  rewrite Hgaps in Hgaps'. injection Hgaps' as <-.
  destruct (offsets_accounted self x first rest Hsorted Hx)
    as [?|[(i & c & n & Hc & Hn & Hlt & Hcx)|(l & Hl & Hlt & Hlx)]];
    [by left|right..].
  - exists (gap self (Block.end_offset c) (Block.start_offset n)).
    split; [|by apply covers_gap].
    apply Hin. left. by exists i, c, n.
  - exists (gap self (Block.end_offset l) (file_size self)).
    split; [|by apply covers_gap].
    apply Hin. right. by exists l.
Qed.

(** The theorem at [tables_file]: offset 190 lies in its gap. *)
Lemma not_used_blocks_cover_witness :
  (exists b, b ∈ used_blocks tables_elf /\ covers b 190)
  \/ (exists g, g ∈ [gap tables_file 184 200] /\ covers g 190).
Proof.
  apply (not_used_blocks_cover tables_file ∅ []
           (header_block tables_file)
           [program_header_table_block tables_file;
            section_header_table_block tables_file]
           [gap tables_file 184 200] 190).
  - repeat constructor; unfold key_le; simpl; lia.
  - reflexivity.
  - vm_compute. split; [discriminate|reflexivity].
Defined.

(** X13.  When the used blocks do not overlap (each ends before the next
    starts) and have non-negative sizes, no byte offset lies both in a used
    block and in a not-used block: the gaps are the complement of the used
    blocks. *)
Theorem not_used_blocks_disjoint_from_used (self : ELFFile.t)
    (header_raw : gmap atom value) (sections : list Section.t)
    (used gaps : list Block.t) (b g : Block.t) (x : Z) :
  StronglySorted before used ->
  Forall (fun b => 0 <= Block.size b) used ->
  _get_not_used_blocks self header_raw sections (Some used) = Ok gaps ->
  b ∈ used -> g ∈ gaps -> covers b x -> ~ covers g x.
Proof.
  intros Hsep Hsizes Hgaps Hb Hg Hbx Hgx.
  assert (used <> []) as Hne by (intros ->; by apply elem_of_nil in Hb).
  destruct (get_not_used_blocks_spec self header_raw sections used Hne)
    as (gaps' & Hgaps' & _ & Hin).
  rewrite Hgaps in Hgaps'. injection Hgaps' as <-.
  apply list_elem_of_lookup in Hb as [k Hk].
  assert (forall i j b1 b2, used !! i = Some b1 -> used !! j = Some b2 ->
                            (i <= j)%nat ->
                            Block.start_offset b1 <= Block.start_offset b2
                            /\ (i < j -> before b1 b2)%nat) as Horder.
  { intros i j b1 b2 Hi Hj Hij. destruct (decide (i = j)) as [->|].
    - simplify_eq. split; [lia|intros; lia].
    - assert (before b1 b2) as Hbefore
        by (apply (StronglySorted_lookup_lt _ used i j); auto with lia).
      split; [|done].
      rewrite Forall_forall in Hsizes.
      pose proof (Hsizes b1 (list_elem_of_lookup_2 _ _ _ Hi)).
      unfold before, Block.end_offset in *. lia. }
  rewrite Forall_forall in Hsizes.
  pose proof (Hsizes b (list_elem_of_lookup_2 _ _ _ Hk)) as Hsize_b.
  apply Hin in Hg
    as [(i & c & n & Hc & Hn & Hlt & ->)|(l & Hl & Hlt & ->)];
    apply covers_gap in Hgx; unfold covers in Hbx.
  - destruct (decide (k <= i)%nat) as [Hle|Hgt].
    + destruct (Horder k i b c Hk Hc Hle) as [Hs Hbefore].
      destruct (decide (k = i)) as [->|].
      * simplify_eq. lia.
      * specialize (Hbefore ltac:(lia)).
        pose proof (Hsizes c (list_elem_of_lookup_2 _ _ _ Hc)).
        unfold before, Block.end_offset in *. lia.
    + destruct (Horder (S i) k n b Hn Hk ltac:(lia)) as [Hs _]. lia.
  - rewrite last_lookup in Hl.
    assert (k <= pred (length used))%nat as Hle
      by (apply lookup_lt_Some in Hk; lia).
    destruct (Horder k _ b l Hk Hl Hle) as [Hs Hbefore].
    destruct (decide (k = pred (length used))) as [->|].
    + simplify_eq. lia.
    + specialize (Hbefore ltac:(lia)).
      pose proof (Hsizes l (list_elem_of_lookup_2 _ _ _ Hl)).
      unfold before, Block.end_offset in *. lia.
Qed.

(** The theorem at [tables_file]: offset 100, in the program-header table,
    is not in the gap. *)
Lemma not_used_blocks_disjoint_from_used_witness :
  ~ covers (gap tables_file 184 200) 100.
Proof.
  apply (not_used_blocks_disjoint_from_used tables_file ∅ []
           (used_blocks tables_elf) [gap tables_file 184 200]
           (program_header_table_block tables_file)).
  - repeat constructor; unfold before; vm_compute; discriminate.
  - repeat constructor; vm_compute; discriminate.
  - reflexivity.
  - right; left.
  - left.
  - vm_compute. split; [discriminate|reflexivity].
Defined.

(** Every not-used block is non-empty, of type [NOT_USED], and starts
    where a used block ends. *)
Lemma not_used_blocks_elements (self : ELFFile.t)
    (header_raw : gmap atom value) (sections : list Section.t)
    (used gaps : list Block.t) :
  _get_not_used_blocks self header_raw sections (Some used) = Ok gaps ->
  Forall (fun g =>
            0 < Block.size g
            /\ Block.block_type g = BlockType.NOT_USED
            /\ Block.object_ g = None
            /\ exists b, b ∈ used
                         /\ Block.start_offset g = Block.end_offset b)
         gaps.
Proof.
  intros Hgaps.
  assert (used <> []) as Hne by (by intros ->).
  destruct (get_not_used_blocks_spec self header_raw sections used Hne)
    as (gaps' & Hgaps' & _ & Hin).
  rewrite Hgaps in Hgaps'. injection Hgaps' as <-.
  apply Forall_forall. intros g Hg.
  apply Hin in Hg
    as [(i & c & n & Hc & Hn & Hlt & ->)|(l & Hl & Hlt & ->)]; simpl.
  - split_and!; [lia|done..|]. exists c.
    split; [by eapply list_elem_of_lookup_2|done].
  - split_and!; [lia|done..|]. exists l.
    split; [by apply last_Some_elem_of|done].
Qed.

(** X14.  Every not-used block returned is a non-empty block of type
    [NOT_USED] that starts where a used block ends; for used blocks sorted
    by start offset and of non-negative sizes the not-used blocks come in
    strictly increasing order of start offset, each ending before the next
    starts. *)
Theorem not_used_blocks_shape (self : ELFFile.t)
    (header_raw : gmap atom value) (sections : list Section.t)
    (used gaps : list Block.t) :
  _get_not_used_blocks self header_raw sections (Some used) = Ok gaps ->
  Forall (fun g =>
            0 < Block.size g
            /\ Block.block_type g = BlockType.NOT_USED
            /\ Block.object_ g = None
            /\ exists b, b ∈ used
                         /\ Block.start_offset g = Block.end_offset b)
         gaps
  /\ (StronglySorted (key_le Block.start_offset) used ->
      Forall (fun b => 0 <= Block.size b) used ->
      StronglySorted before gaps
      /\ StronglySorted (fun g1 g2 =>
                           Block.start_offset g1 < Block.start_offset g2)
           gaps).
Proof.
  intros Hgaps.
  pose proof (not_used_blocks_elements self header_raw sections used gaps
                Hgaps) as Hshape.
  split; [done|]. intros Hsorted Hsizes.
  destruct (not_used_blocks_separated self header_raw sections used gaps
              Hsorted Hsizes Hgaps) as [Hsep _].
  split; [done|].
  clear Hgaps. induction Hsep as [|g gaps Hsep IH Hg]; [constructor|].
  apply Forall_cons in Hshape as [(Hpos & _) Hshape].
  constructor; [by apply IH|].
  eapply Forall_impl; [exact Hg|].
  unfold before, Block.end_offset. intros; lia.
Qed.

(** The theorem at the used blocks of [overlap_file]. *)
Lemma not_used_blocks_shape_witness :
  StronglySorted before (not_used_blocks overlap_elf).
Proof.
  destruct (not_used_blocks_shape overlap_file ∅ []
              (used_blocks overlap_elf) (not_used_blocks overlap_elf)
              eq_refl) as [_ Hsorted].
  apply Hsorted.
  - repeat constructor; unfold key_le; simpl; lia.
  - repeat constructor; simpl; lia.
Defined.

(** [compare_to_never_reports_overlaps] at the files [overlap_file] and
    [tables_file]. *)
Lemma compare_to_never_reports_overlaps_witness :
  match reported_overlaps (compare_to overlap_elf tables_elf heap_at_import)
  with
  | Ok overlaps => overlaps = ([], [])
  | Raise _ => True
  end.
Proof.
  apply (compare_to_never_reports_overlaps overlap_file tables_file).
  - unfold nonneg_sizes. simpl. split_and!; [lia..|].
    repeat constructor; simpl; lia.
  - unfold nonneg_sizes. simpl. split_and!; [lia..|]. constructor.
  - reflexivity.
  - reflexivity.
Defined.

(** ** The shared list only grows *)

Lemma appends_only_ret {A : Type} (a : A) : appends_only (ret a).
Proof. intros [ds]. unfold ret. simpl. by rewrite app_nil_r. Qed.

Lemma appends_only_lift {A : Type} (r : result A) : appends_only (lift r).
Proof. intros [ds]. unfold lift. simpl. by rewrite app_nil_r. Qed.

Lemma appends_only_append (r : list_ref) (x : NotUsedBlockDiff.t) :
  appends_only (append r x).
Proof. intros [ds]. by destruct r. Qed.

Lemma appends_only_bind {A B : Type} (m : M A) (k : A -> M B) :
  appends_only m -> (forall a, appends_only (k a)) -> appends_only (bind m k).
Proof.
  intros Hm Hk h. unfold bind. rewrite (Hm h).
  destruct (m heap_at_import) as [h0 [a|e]]; simpl; [|done].
  rewrite (Hk a (mk_heap _)), (Hk a h0). simpl. by rewrite app_assoc.
Qed.

Lemma appends_only_for_each_M {A : Type} (body : A -> M unit) (l : list A) :
  (forall x, appends_only (body x)) -> appends_only (for_each_M body l).
Proof.
  intros Hbody. induction l as [|x l IH]; simpl.
  - apply appends_only_ret.
  - apply appends_only_bind; [apply Hbody|]. by intros _.
Qed.

Lemma appends_only_compare_not_used (result : AllBlocksDiff.t)
    (blocks : Block.t * Block.t) :
  appends_only (compare_not_used result blocks).
Proof.
  unfold compare_not_used.
  apply appends_only_bind; [apply appends_only_lift|]. intros data_1.
  apply appends_only_bind; [apply appends_only_lift|]. intros data_2.
  destruct (NotUsedBlockDiff.has_changes _).
  - apply appends_only_append.
  - apply appends_only_ret.
Qed.

Lemma appends_only_compare_blocks (self other : ComparableElf.t) :
  appends_only (_compare_blocks self other).
Proof.
  unfold _compare_blocks.
  apply appends_only_bind; [|intros; apply appends_only_ret].
  destruct (_ =? _); [|apply appends_only_ret].
  apply appends_only_bind; [|intros; apply appends_only_ret].
  apply appends_only_for_each_M. intros blocks.
  apply appends_only_compare_not_used.
Qed.

(** X16.  A comparison only appends to the list behind
    [diffs_in_not_used], and what it appends and returns does not depend on
    what the list held: the list a caller reads in the report is everything
    earlier comparisons left there, followed by the differences of this
    one. *)
Theorem compare_to_appends (self other : ComparableElf.t) (h : heap) :
  compare_to self other h
  = (mk_heap (default_diffs h
              ++ default_diffs (compare_to self other heap_at_import).1),
     (compare_to self other heap_at_import).2)
  /\ forall diffs,
       reported_diffs (compare_to self other heap_at_import) = Ok diffs ->
       reported_diffs (compare_to self other h)
       = Ok (default_diffs h ++ diffs).
Proof.
  assert (appends_only (compare_to self other)) as Happ.
  { unfold compare_to.
    apply appends_only_bind; [apply appends_only_lift|]. intros secs.
    apply appends_only_bind; [apply appends_only_compare_blocks|].
    intros blocks. apply appends_only_ret. }
  split; [apply Happ|].
  intros diffs. rewrite (Happ h).
  destruct (compare_to self other heap_at_import) as [h0 [report|e]];
    simpl; [|done].
  unfold ElfDiff.diffs_in_not_used.
  destruct (AllBlocksDiff.diffs_in_not_used _). simpl. by intros [= <-].
Qed.

(** ** Comparing the not-used blocks *)

Lemma block_data_ok (b : Block.t) :
  in_file b -> exists x, Block.data b = Ok x.
Proof.
  intros (Hstart & Hsize & Hend & Hfile). unfold Block.data.
  unfold Block.end_offset in Hend.
  rewrite seek_read_ok by (destruct limits as (? & ? & ?); lia).
  by eexists.
Qed.

Lemma compare_not_used_ok (result : AllBlocksDiff.t) (b1 b2 : Block.t)
    (x1 x2 : list byte) (h : heap) :
  Block.data b1 = Ok x1 -> Block.data b2 = Ok x2 ->
  compare_not_used result (b1, b2) h
  = (mk_heap (default_diffs h
              ++ if (Block.size b1 =? Block.size b2)
                    && (locate_array_diff x1 x2 =? -1)
                 then [] else [not_used_diff b1 b2 x1 x2]),
     Ok tt).
Proof.
  intros H1 H2. unfold compare_not_used, bind, lift, append, ret. simpl.
  rewrite H1, H2. unfold NotUsedBlockDiff.has_changes, not_used_diff. simpl.
  destruct (AllBlocksDiff.diffs_in_not_used result), h as [ds].
  destruct (Block.size b1 =? Block.size b2),
    (locate_array_diff x1 x2 =? -1); simpl; by rewrite ?app_nil_r.
Qed.

Lemma for_each_M_compare_not_used (result : AllBlocksDiff.t)
    (pairs : list (Block.t * Block.t)) (h : heap) :
  Forall (fun p => in_file p.1 /\ in_file p.2) pairs ->
  exists diffs,
    for_each_M (compare_not_used result) pairs h
    = (mk_heap (default_diffs h ++ diffs), Ok tt)
    /\ forall d,
         d ∈ diffs <->
         exists i b1 b2 x1 x2,
           pairs !! i = Some (b1, b2)
           /\ Block.data b1 = Ok x1 /\ Block.data b2 = Ok x2
           /\ (Block.size b1 <> Block.size b2 \/ x1 <> x2)
           /\ d = not_used_diff b1 b2 x1 x2.
Proof.
  intros Hpairs. revert h.
  induction Hpairs as [|[b1 b2] pairs [Hb1 Hb2] _ IH]; intros h.
  - exists []. simpl. unfold ret. destruct h as [ds].
    rewrite app_nil_r. split; [done|].
    intros d. rewrite elem_of_nil. split; [done|].
    by intros (i & ? & ? & ? & ? & ? & _).
  - simpl in Hb1, Hb2.
    destruct (block_data_ok b1 Hb1) as [x1 H1].
    destruct (block_data_ok b2 Hb2) as [x2 H2].
    simpl. unfold bind at 1.
    rewrite (compare_not_used_ok result b1 b2 x1 x2 h H1 H2).
    destruct (IH (mk_heap
                    (default_diffs h
                     ++ if (Block.size b1 =? Block.size b2)
                           && (locate_array_diff x1 x2 =? -1)
                        then [] else [not_used_diff b1 b2 x1 x2])))
      as (diffs & Hrun & Hdiffs).
    rewrite Hrun. simpl. rewrite <- app_assoc.
    eexists. split; [reflexivity|].
    intros d. rewrite elem_of_app, Hdiffs. split.
    + intros [Hd|(i & c1 & c2 & y1 & y2 & Hi & ?)].
      * exists 0%nat, b1, b2, x1, x2.
        destruct (Z.eqb_spec (Block.size b1) (Block.size b2));
          destruct (Z.eqb_spec (locate_array_diff x1 x2) (-1));
          simpl in Hd; try (by apply elem_of_nil in Hd);
          apply list_elem_of_singleton in Hd;
          (split_and!; [done..| |done]).
        -- right. by rewrite <- locate_array_diff_minus_one.
        -- by left.
        -- by left.
      * by exists (S i), c1, c2, y1, y2.
    + intros ([|i] & c1 & c2 & y1 & y2 & Hi & Hy1 & Hy2 & Hdiff & ->).
      * injection Hi as <- <-. left.
        rewrite H1 in Hy1. rewrite H2 in Hy2.
        injection Hy1 as <-. injection Hy2 as <-.
        destruct (Z.eqb_spec (Block.size b1) (Block.size b2));
          destruct (Z.eqb_spec (locate_array_diff x1 x2) (-1));
          simpl; try (by left).
        apply locate_array_diff_minus_one in e0. tauto.
      * right. by exists i, c1, c2, y1, y2.
Qed.

Lemma compare_blocks_run (self other : ComparableElf.t) (h : heap) :
  Forall in_file (not_used_blocks self) ->
  Forall in_file (not_used_blocks other) ->
  exists r diffs,
    _compare_blocks self other h
    = (mk_heap (default_diffs h ++ diffs), Ok r)
    /\ (length (not_used_blocks self) <> length (not_used_blocks other) ->
        diffs = []
        /\ AllBlocksDiff.counts_of_not_used r
           = Some (len (not_used_blocks self),
                   len (not_used_blocks other)))
    /\ (length (not_used_blocks self) = length (not_used_blocks other) ->
        AllBlocksDiff.counts_of_not_used r = None
        /\ forall d,
             d ∈ diffs <->
             exists i b1 b2 x1 x2,
               not_used_blocks self !! i = Some b1
               /\ not_used_blocks other !! i = Some b2
               /\ Block.data b1 = Ok x1 /\ Block.data b2 = Ok x2
               /\ (Block.size b1 <> Block.size b2 \/ x1 <> x2)
               /\ d = not_used_diff b1 b2 x1 x2).
Proof.
  intros Hself Hother. unfold _compare_blocks, len. simpl.
  destruct (Z.eqb_spec (Z.of_nat (length (not_used_blocks self)))
              (Z.of_nat (length (not_used_blocks other)))) as [Heq|Hne].
  - destruct (for_each_M_compare_not_used AllBlocksDiff.init
                (zip (not_used_blocks self) (not_used_blocks other)) h)
      as (diffs & Hrun & Hdiffs).
    { apply Forall_forall. intros [b1 b2] Hin.
      rewrite Forall_forall in Hself, Hother. simpl. split.
      - apply Hself. by eapply elem_of_zip_l.
      - apply Hother. by eapply elem_of_zip_r. }
    unfold bind. rewrite Hrun. unfold ret. simpl.
    eexists _, diffs. split; [reflexivity|]. split; [lia|].
    intros _. split; [done|].
    intros d. rewrite Hdiffs. split.
    + intros (i & b1 & b2 & x1 & x2 & Hi & Hrest).
      apply lookup_zip_with_Some in Hi as (c1 & c2 & [= -> ->] & Hc1 & Hc2).
      by exists i, c1, c2, x1, x2.
    + intros (i & b1 & b2 & x1 & x2 & Hb1 & Hb2 & Hrest).
      exists i, b1, b2, x1, x2. split; [|done].
      apply lookup_zip_with_Some. by exists b1, b2.
  - unfold bind, ret. simpl. destruct h as [ds]. simpl.
    eexists _, []. rewrite app_nil_r. split; [reflexivity|].
    split; [by intros _|lia].
Qed.

(** X17.  How not-used blocks that lie within their files are compared.
    When the two files have a different number of them, only the two counts
    are reported:
    no block is read and nothing is appended.  When the numbers are equal,
    no count is reported and the blocks are paired by position; a pair adds
    an entry exactly when the two blocks differ in size or in their bytes,
    and the entry names both blocks, holds the sizes only when these differ,
    and holds [locate_array_diff] of the bytes. *)
Theorem compare_blocks_not_used (self other : ComparableElf.t) (h : heap) :
  Forall in_file (not_used_blocks self) ->
  Forall in_file (not_used_blocks other) ->
  exists r diffs,
    _compare_blocks self other h
    = (mk_heap (default_diffs h ++ diffs), Ok r)
    /\ (length (not_used_blocks self) <> length (not_used_blocks other) ->
        diffs = []
        /\ AllBlocksDiff.counts_of_not_used r
           = Some (len (not_used_blocks self),
                   len (not_used_blocks other)))
    /\ (length (not_used_blocks self) = length (not_used_blocks other) ->
        AllBlocksDiff.counts_of_not_used r = None
        /\ forall d,
             d ∈ diffs <->
             exists i b1 b2 x1 x2,
               not_used_blocks self !! i = Some b1
               /\ not_used_blocks other !! i = Some b2
               /\ Block.data b1 = Ok x1 /\ Block.data b2 = Ok x2
               /\ (Block.size b1 <> Block.size b2 \/ x1 <> x2)
               /\ d = not_used_diff b1 b2 x1 x2).
Proof. apply compare_blocks_run. Qed.

(** The theorem at [tables_elf] and [tables_elf'], whose one gap differs
    in its last byte. *)
Lemma compare_blocks_not_used_witness :
  exists r diffs,
    _compare_blocks tables_elf tables_elf' heap_at_import
    = (mk_heap diffs, Ok r)
    /\ tables_diff ∈ diffs.
Proof.
  destruct (compare_blocks_not_used tables_elf tables_elf' heap_at_import)
    as (r & diffs & Hrun & _ & Heq).
  - repeat constructor; by vm_compute.
  - repeat constructor; by vm_compute.
  - exists r, diffs. split; [exact Hrun|].
    apply (proj2 (Heq eq_refl)).
    exists 0%nat, (gap tables_file 184 200), (gap tables_file' 184 200),
      (repeat x00 16), (repeat x00 15 ++ [x01]).
    split_and!; [reflexivity..| |reflexivity].
    right. discriminate.
Defined.

Lemma compare_segments_same (self : ComparableElf.t) :
  DictDiff.has_changes (_compare_segments self self) = false.
Proof.
  unfold _compare_segments, compare_dict.
  by apply compare_dict_with_no_changes; [apply operator_eq_spec|..].
Qed.

(** ** A comparison of parsed files returns *)

Lemma used_blocks_nonneg_start (self : ELFFile.t) :
  nonneg_offsets self ->
  Forall (fun b => 0 <= Block.start_offset b)
    (_get_used_blocks self (make_header_raw self)
       (ELFFile.iter_sections self)).
Proof.
  intros (Hph & Hsh & Hsecs). unfold _get_used_blocks.
  rewrite sort_by_key_perm. simpl app.
  repeat (constructor; [done|]).
  induction Hsecs as [|s l Hs _ IH]; simpl; [constructor|].
  destruct (is_dummy s); simpl; [done|]. by constructor.
Qed.

Lemma used_blocks_start_in_file (self : ELFFile.t) :
  offsets_in_file self ->
  Forall (fun b => Block.start_offset b <= file_size self)
    (_get_used_blocks self (make_header_raw self)
       (ELFFile.iter_sections self)).
Proof.
  intros (_ & Hph & Hsh & Hsecs). unfold _get_used_blocks.
  rewrite sort_by_key_perm. simpl app.
  constructor; [unfold file_size, len; simpl; lia|].
  repeat (constructor; [done|]).
  induction Hsecs as [|s l Hs _ IH]; simpl; [constructor|].
  destruct (is_dummy s); simpl; [done|]. constructor; [|done]. by apply Hs.
Qed.

(** The not-used blocks of a parsed file lie within the file. *)
Lemma read_metadata_not_used_in_file (file : ELFFile.t)
    (self : ComparableElf.t) :
  read_metadata file = Ok self ->
  nonneg_sizes file -> nonneg_offsets file -> offsets_in_file file ->
  Forall in_file (not_used_blocks self).
Proof.
  intros Hread Hsizes Hoffsets Hin. unfold read_metadata in Hread.
  destruct (_get_not_used_blocks _ _ _ _) as [gaps|] eqn:Hgaps;
    [|discriminate].
  injection Hread as <-. simpl.
  pose proof (used_blocks_nonneg file Hsizes) as Hsz.
  pose proof (used_blocks_nonneg_start file Hoffsets) as Hst.
  pose proof (used_blocks_start_in_file file Hin) as Hfs.
  destruct Hin as (Hfile & _).
  revert Hgaps Hsz Hst Hfs.
  generalize (_get_used_blocks file (make_header_raw file)
                (ELFFile.iter_sections file)).
  intros used Hgaps Hsz Hst Hfs.
  assert (used <> []) as Hne by (by intros ->).
  destruct (get_not_used_blocks_spec file (make_header_raw file)
              (ELFFile.iter_sections file) used Hne)
    as (gaps' & Hgaps' & _ & Hchar).
  rewrite Hgaps in Hgaps'. injection Hgaps' as <-.
  rewrite Forall_forall in Hsz, Hst, Hfs.
  apply Forall_forall. intros g Hg.
  apply Hchar in Hg
    as [(i & c & n & Hc & Hn & Hlt & ->)|(l & Hl & Hlt & ->)].
  - apply list_elem_of_lookup_2 in Hc, Hn.
    specialize (Hsz c Hc). specialize (Hst c Hc). specialize (Hfs n Hn).
    unfold in_file, gap, Block.end_offset in *. simpl. lia.
  - apply last_Some_elem_of in Hl.
    specialize (Hsz l Hl). specialize (Hst l Hl).
    unfold in_file, gap, Block.end_offset in *. simpl. lia.
Qed.

(** [_compare_sections] returns; the names it reports. *)
Lemma compare_sections_run (self other : ComparableElf.t) :
  exists r,
    _compare_sections self other = Ok r
    /\ AllSectionsDiff.left_new r
       = dom (sections_dict (sections self))
         ∖ dom (sections_dict (sections other))
    /\ AllSectionsDiff.right_new r
       = dom (sections_dict (sections other))
         ∖ dom (sections_dict (sections self))
    /\ forall k,
         k ∈ dom (AllSectionsDiff.modified r) <->
         exists s1 s2,
           sections_dict (sections self) !! k = Some s1
           /\ sections_dict (sections other) !! k = Some s2
           /\ section_modified s1 s2.
Proof.
  unfold _compare_sections.
  set (d1 := sections_dict (sections self)).
  set (d2 := sections_dict (sections other)).
  destruct (for_each_compare_section d1 d2
              (elements (DictDiff.common_keys
                 (compare_dict_with (fun s1 s2 : Section.t => (s1, s2))
                    d1 d2 false true Section.eq))) ∅)
    as (m & Hm & Hdom).
  { intros k Hk%elem_of_elements.
    rewrite compare_dict_with_common, elem_of_intersection,
      !elem_of_dom in Hk. exact Hk. }
  rewrite Hm. simpl. eexists. split; [reflexivity|]. simpl.
  split; [reflexivity|]. split; [reflexivity|].
  intros k. rewrite Hdom, dom_empty, elem_of_empty. split.
  - intros [[]|(_ & Hk)]. exact Hk.
  - intros (s1 & s2 & H1 & H2 & Hmod). right. split; [|by exists s1, s2].
    apply elem_of_elements.
    rewrite compare_dict_with_common, elem_of_intersection, !elem_of_dom.
    split; eauto.
Qed.

(** X18.  Comparing two parsed files, whose offsets and sizes are
    unsigned and whose tables and sections start within the file, does not
    raise: [compare_to] returns a report that names the two files and holds
    the header diff, the segment diff, the section diff and the block
    diff. *)
Theorem compare_to_returns (left right : ELFFile.t)
    (self other : ComparableElf.t) (h : heap) :
  read_metadata left = Ok self -> read_metadata right = Ok other ->
  nonneg_sizes left -> nonneg_offsets left -> offsets_in_file left ->
  nonneg_sizes right -> nonneg_offsets right -> offsets_in_file right ->
  exists h' report,
    compare_to self other h = (h', Ok report)
    /\ ElfDiff.left_elf report = self
    /\ ElfDiff.right_elf report = other
    /\ ElfDiff.compared_elf_headers report
       = compare_dict (header_raw self) (header_raw other) false true false
           operator_eq
    /\ ElfDiff.compared_segments report = _compare_segments self other
    /\ _compare_sections self other = Ok (ElfDiff.compared_sections report)
    /\ _compare_blocks self other h
       = (h', Ok (ElfDiff.compared_blocks report)).
Proof.
  intros Hself Hother Hsl Hol Hil Hsr Hor Hir.
  destruct (compare_sections_run self other) as (secs & Hsecs & _).
  destruct (compare_blocks_run self other h)
    as (blocks & diffs & Hblocks & _).
  { by eapply read_metadata_not_used_in_file. }
  { by eapply read_metadata_not_used_in_file. }
  unfold compare_to, bind, lift, ret. rewrite Hsecs, Hblocks.
  eexists _, _. split; [reflexivity|]. simpl. by split_and!.
Qed.

Lemma nonneg_tables_file :
  nonneg_sizes tables_file /\ nonneg_offsets tables_file.
Proof.
  unfold nonneg_sizes, nonneg_offsets. simpl.
  split_and!; first [lia|constructor].
Qed.

Lemma nonneg_overlap_file :
  nonneg_sizes overlap_file /\ nonneg_offsets overlap_file.
Proof.
  unfold nonneg_sizes, nonneg_offsets. simpl.
  split_and!; first [lia|repeat constructor; simpl; lia].
Qed.

Lemma offsets_in_tables_file : offsets_in_file tables_file.
Proof. split_and!; [by vm_compute..|constructor]. Qed.

Lemma offsets_in_overlap_file : offsets_in_file overlap_file.
Proof.
  split_and!; [by vm_compute..|].
  unfold overlap_file, example_file. cbn [ELFFile.iter_sections].
  repeat (apply Forall_cons_2; [by vm_compute|]). constructor.
Qed.

(** The theorem at [overlap_file] and [tables_file]. *)
Lemma compare_to_returns_witness :
  exists h' report,
    compare_to overlap_elf tables_elf heap_at_import = (h', Ok report)
    /\ ElfDiff.left_elf report = overlap_elf.
Proof.
  destruct (compare_to_returns overlap_file tables_file overlap_elf
              tables_elf heap_at_import eq_refl eq_refl
              (proj1 nonneg_overlap_file) (proj2 nonneg_overlap_file)
              offsets_in_overlap_file
              (proj1 nonneg_tables_file) (proj2 nonneg_tables_file)
              offsets_in_tables_file)
    as (h' & report & Hrun & Hleft & _).
  exists h', report. split; [exact Hrun|exact Hleft].
Defined.

(** ** A file compared with itself *)

Lemma header_diff_same (section : Section.t) :
  DictDiff.has_changes (header_diff section section) = false.
Proof.
  pose proof (proj2 (compare_dict_with_no_changes
                       (modified_value false false)
                       (Section.header section) (Section.header section)
                       true false operator_eq operator_eq_spec eq_refl)
                eq_refl) as Hno.
  apply has_changes_false in Hno as (Hl & Hr & Hm).
  apply has_changes_false. unfold header_diff, compare_dict.
  unfold DictDiff.pop_modified. cbn [DictDiff.left_new DictDiff.right_new
                                      DictDiff.modified].
  split_and!; [done..|].
  apply set_eq. intros k. rewrite dom_delete, elem_of_difference, Hm.
  split; [by intros [? _]|by intros ?%elem_of_empty].
Qed.

Lemma section_modified_same (section : Section.t) :
  ~ section_modified section section.
Proof.
  intros [H|[H|H]].
  - by rewrite header_diff_same in H.
  - done.
  - by apply H, locate_array_diff_minus_one.
Qed.

(** X19.  In a fresh interpreter, a parsed file whose offsets and sizes
    are unsigned and whose tables and sections start within the file,
    compared with itself, has no changes: the report's [has_changes] is
    false and nothing is appended to the shared list. *)
Theorem compare_to_self (file : ELFFile.t) (self : ComparableElf.t) :
  read_metadata file = Ok self ->
  nonneg_sizes file -> nonneg_offsets file -> offsets_in_file file ->
  exists report,
    compare_to self self heap_at_import = (heap_at_import, Ok report)
    /\ ElfDiff.has_changes heap_at_import report = false.
Proof.
  intros Hself Hsizes Hoffsets Hin.
  destruct (compare_sections_run self self)
    as (secs & Hsecs & Hleft & Hright & Hmod).
  pose proof (read_metadata_not_used_in_file file self Hself Hsizes Hoffsets
                Hin) as Hnonneg.
  destruct (compare_blocks_run self self heap_at_import Hnonneg Hnonneg)
    as (blocks & diffs & Hblocks & _ & Heq).
  destruct (Heq eq_refl) as [Hcounts Hdiffs].
  assert (diffs = []) as ->.
  { destruct diffs as [|d diffs]; [done|].
    destruct (proj1 (Hdiffs d)) as (i & b1 & b2 & x1 & x2 & Hb1 & Hb2
                                     & Hx1 & Hx2 & Hdiff & _); [left|].
    rewrite Hb1 in Hb2. injection Hb2 as <-.
    rewrite Hx1 in Hx2. injection Hx2 as <-. tauto. }
  destruct (compare_blocks_overlaps _ _ _ _ _ Hblocks) as [Hlo Hro].
  rewrite (read_metadata_not_used_separated file self Hsizes Hself)
    in Hlo, Hro.
  unfold compare_to, bind, lift, ret. rewrite Hsecs, Hblocks. simpl.
  eexists. split; [reflexivity|].
  unfold ElfDiff.has_changes. simpl.
  rewrite !orb_false_iff. split_and!.
  - apply compare_dict_with_no_changes; [apply operator_eq_spec|done..].
  - apply compare_segments_same.
  - unfold AllSectionsDiff.has_changes.
    rewrite Hleft, Hright, !orb_false_iff, !negb_false_iff,
      !bool_decide_eq_true.
    split_and!; [set_solver..|].
    apply set_eq. intros k. split; [|set_solver].
    intros (s1 & s2 & H1 & H2 & Hm)%Hmod.
    rewrite H1 in H2. injection H2 as <-.
    by apply section_modified_same in Hm.
  - unfold AllBlocksDiff.has_changes.
    rewrite Hlo, Hro, Hcounts.
    by destruct (AllBlocksDiff.diffs_in_not_used blocks).
Qed.

(** The theorem at [overlap_file]. *)
Lemma compare_to_self_witness :
  exists report,
    compare_to overlap_elf overlap_elf heap_at_import
    = (heap_at_import, Ok report)
    /\ ElfDiff.has_changes heap_at_import report = false.
Proof.
  exact (compare_to_self overlap_file overlap_elf eq_refl
           (proj1 nonneg_overlap_file) (proj2 nonneg_overlap_file)
           offsets_in_overlap_file).
Defined.

(** ** Sections by name *)

Lemma sections_dict_snoc (sections : list Section.t) (section : Section.t) :
  sections_dict (sections ++ [section])
  = <[Str (Section.name section) := section]> (sections_dict sections).
Proof. unfold sections_dict. by rewrite foldl_app. Qed.

(** The dictionary of sections holds, for each name, the last section of
    that name, and has no other key. *)
Lemma sections_dict_lookup (sections : list Section.t) (k : atom) :
  sections_dict sections !! k
  = match k with
    | Str name => last_named name sections
    | Int _ => None
    end.
Proof.
  unfold last_named.
  induction sections as [|section sections IH] using rev_ind.
  - by destruct k.
  - rewrite sections_dict_snoc.
    destruct (decide (Str (Section.name section) = k)) as [<-|Hne].
    + rewrite lookup_insert_eq, filter_app, filter_cons_True by done.
      by rewrite filter_nil, last_snoc.
    + rewrite lookup_insert_ne, IH by done. destruct k as [|name]; [done|].
      rewrite filter_app, filter_cons_False, filter_nil, app_nil_r; [done|].
      congruence.
Qed.

Lemma last_named_is_Some (name : string) (sections : list Section.t) :
  is_Some (last_named name sections) <->
  exists s, s ∈ sections /\ Section.name s = name.
Proof.
  unfold last_named. rewrite last_is_Some. split.
  - intros Hne.
    destruct (filter _ sections) as [|s l] eqn:Hf; [done|].
    assert (s ∈ filter (fun s => Section.name s = name) sections) as Hs
      by (rewrite Hf; left).
    apply list_elem_of_filter in Hs as [? ?]. by exists s.
  - intros (s & Hs & Hname) Hnil.
    by eapply (filter_nil_not_elem_of _ sections s).
Qed.

(** ** Section headers: [sh_name] is ignored *)

(** Removing one key of both dictionaries from [modified] makes the diff
    one of the dictionaries without that key. *)
Lemma pop_modified_no_changes (d1 d2 : gmap atom value) (k : atom) :
  is_Some (d1 !! k) -> is_Some (d2 !! k) ->
  DictDiff.has_changes
    (DictDiff.pop_modified
       (compare_dict d1 d2 false true false operator_eq) k) = false
  <-> delete k d1 = delete k d2.
Proof.
  intros [w1 Hw1] [w2 Hw2]. rewrite has_changes_false.
  unfold DictDiff.pop_modified, compare_dict.
  cbn [DictDiff.left_new DictDiff.right_new DictDiff.modified].
  rewrite compare_dict_with_left_new, compare_dict_with_right_new.
  split.
  - intros (Hleft & Hright & Hmod). apply map_eq. intros k'.
    destruct (decide (k = k')) as [<-|Hne]; [by rewrite !lookup_delete_eq|].
    rewrite !lookup_delete_ne by done.
    assert (k' ∉ dom d1 ∖ dom d2) as Hl by (rewrite Hleft; set_solver).
    assert (k' ∉ dom d2 ∖ dom d1) as Hr by (rewrite Hright; set_solver).
    rewrite elem_of_difference, !elem_of_dom in Hl, Hr.
    assert (delete k
              (DictDiff.modified
                 (compare_dict_with (modified_value false false) d1 d2
                    true false operator_eq)) !! k' = None) as Hk.
    { apply not_elem_of_dom. rewrite Hmod. set_solver. }
    rewrite lookup_delete_ne, compare_dict_with_modified_lookup in Hk
      by done.
    destruct (d1 !! k') as [v1|] eqn:H1, (d2 !! k') as [v2|] eqn:H2.
    + destruct (operator_eq v1 v2) eqn:Hc; [|done].
      apply operator_eq_spec in Hc. by subst.
    + destruct Hl. split; [by eexists|]. by intros [? [=]].
    + destruct Hr. split; [by eexists|]. by intros [? [=]].
    + done.
  - intros Heq.
    assert (forall k', k' <> k -> d1 !! k' = d2 !! k') as Hsame.
    { intros k' Hne.
      apply (f_equal (fun m : gmap atom value => m !! k')) in Heq.
      by rewrite !lookup_delete_ne in Heq. }
    assert (forall k', is_Some (d1 !! k') <-> is_Some (d2 !! k')) as Hdom.
    { intros k'. destruct (decide (k' = k)) as [->|Hne].
      - rewrite Hw1, Hw2. split; by eexists.
      - by rewrite Hsame. }
    split_and!.
    + apply set_eq. intros k'.
      rewrite elem_of_difference, !elem_of_dom, Hdom. set_solver.
    + apply set_eq. intros k'.
      rewrite elem_of_difference, !elem_of_dom, Hdom. set_solver.
    + apply set_eq. intros k'. split; [|by intros ?%elem_of_empty].
      rewrite dom_delete, elem_of_difference, elem_of_singleton.
      intros [[m Hm]%elem_of_dom Hne].
      rewrite compare_dict_with_modified_lookup, (Hsame k' Hne) in Hm.
      destruct (d2 !! k') as [v|]; [|done].
      by rewrite (proj2 (operator_eq_spec v v) eq_refl) in Hm.
Qed.

Lemma header_without_name (s1 s2 : Section.t) :
  delete (Str "sh_name") (Section.header s1)
  = delete (Str "sh_name") (Section.header s2)
  <-> same_header_but_name s1 s2.
Proof.
  split.
  - intros Heq.
    assert (forall k, k <> Str "sh_name" ->
                      Section.header s1 !! k = Section.header s2 !! k)
      as Hk.
    { intros k Hne.
      apply (f_equal (fun m : gmap atom value => m !! k)) in Heq.
      by rewrite !lookup_delete_ne in Heq. }
    pose proof (Hk (Str "sh_type") ltac:(discriminate)) as H1.
    pose proof (Hk (Str "sh_flags") ltac:(discriminate)) as H2.
    pose proof (Hk (Str "sh_addr") ltac:(discriminate)) as H3.
    pose proof (Hk (Str "sh_offset") ltac:(discriminate)) as H4.
    pose proof (Hk (Str "sh_size") ltac:(discriminate)) as H5.
    pose proof (Hk (Str "sh_link") ltac:(discriminate)) as H6.
    pose proof (Hk (Str "sh_info") ltac:(discriminate)) as H7.
    pose proof (Hk (Str "sh_addralign") ltac:(discriminate)) as H8.
    pose proof (Hk (Str "sh_entsize") ltac:(discriminate)) as H9.
    change (Some (Atom (Section.sh_type s1))
            = Some (Atom (Section.sh_type s2))) in H1.
    change (Some (Atom (Int (Section.sh_flags s1)))
            = Some (Atom (Int (Section.sh_flags s2)))) in H2.
    change (Some (Atom (Int (Section.sh_addr s1)))
            = Some (Atom (Int (Section.sh_addr s2)))) in H3.
    change (Some (Atom (Int (Section.sh_offset s1)))
            = Some (Atom (Int (Section.sh_offset s2)))) in H4.
    change (Some (Atom (Int (Section.sh_size s1)))
            = Some (Atom (Int (Section.sh_size s2)))) in H5.
    change (Some (Atom (Int (Section.sh_link s1)))
            = Some (Atom (Int (Section.sh_link s2)))) in H6.
    change (Some (Atom (Int (Section.sh_info s1)))
            = Some (Atom (Int (Section.sh_info s2)))) in H7.
    change (Some (Atom (Int (Section.sh_addralign s1)))
            = Some (Atom (Int (Section.sh_addralign s2)))) in H8.
    change (Some (Atom (Int (Section.sh_entsize s1)))
            = Some (Atom (Int (Section.sh_entsize s2)))) in H9.
    unfold same_header_but_name. split_and!; congruence.
  - intros (H1 & H2 & H3 & H4 & H5 & H6 & H7 & H8 & H9).
    unfold Section.header. rewrite H1, H2, H3, H4, H5, H6, H7, H8, H9.
    cbn [list_to_map foldr fst snd]. by rewrite !delete_insert_eq.
Qed.

Lemma header_diff_no_changes (s1 s2 : Section.t) :
  DictDiff.has_changes (header_diff s1 s2) = false
  <-> same_header_but_name s1 s2.
Proof.
  unfold header_diff.
  rewrite pop_modified_no_changes; [apply header_without_name|..];
    by eexists.
Qed.

(** C5.  [_compare_sections] returns, and for every section name common to
    both files the name is a key of [modified] if and only if the two
    headers differ in a field other than [sh_name], or the payload lengths
    differ, or [locate_array_diff] of the payloads is not [-1].  The first
    condition is the header diff (unchanged fields left out, [sh_name]
    removed afterwards) being not empty, the last is the payloads being
    different. *)
Theorem compare_sections_modified (self other : ComparableElf.t) :
  exists r,
    _compare_sections self other = Ok r
    /\ forall (section_name : atom) (section_1 section_2 : Section.t),
         sections_dict (sections self) !! section_name = Some section_1 ->
         sections_dict (sections other) !! section_name = Some section_2 ->
         (section_name ∈ dom (AllSectionsDiff.modified r)
          <-> ~ same_header_but_name section_1 section_2
              \/ len (Section.data section_1) <> len (Section.data section_2)
              \/ locate_array_diff (Section.data section_1)
                   (Section.data section_2) <> -1)
         /\ (DictDiff.has_changes (header_diff section_1 section_2) = true
             <-> ~ same_header_but_name section_1 section_2)
         /\ (locate_array_diff (Section.data section_1)
               (Section.data section_2) <> -1
             <-> Section.data section_1 <> Section.data section_2).
Proof.
  destruct (compare_sections_run self other) as (r & Hr & _ & _ & Hmod).
  exists r. split; [exact Hr|]. intros name s1 s2 H1 H2.
  assert (DictDiff.has_changes (header_diff s1 s2) = true
          <-> ~ same_header_but_name s1 s2) as Hheader.
  { rewrite <- header_diff_no_changes.
    by destruct (DictDiff.has_changes (header_diff s1 s2)). }
  split; [|split; [exact Hheader|]].
  - rewrite Hmod, <- Hheader. fold (section_modified s1 s2). split.
    + intros (t1 & t2 & Ht1 & Ht2 & Ht). congruence.
    + intros Ht. by exists s1, s2.
  - by rewrite locate_array_diff_minus_one.
Qed.

(** The theorem at the files [sections_file] and [sections_file']:
    [.data] differs in byte 3 and is reported, [.text] is equal and is
    not. *)
Lemma compare_sections_modified_witness :
  exists r,
    _compare_sections sections_elf sections_elf' = Ok r
    /\ Str ".data" ∈ dom (AllSectionsDiff.modified r)
    /\ Str ".text" ∉ dom (AllSectionsDiff.modified r).
Proof.
  destruct (compare_sections_modified sections_elf sections_elf')
    as (r & Hr & Hiff).
  exists r. split; [exact Hr|]. split.
  - apply (Hiff (Str ".data") data_section data_section');
      [reflexivity..|].
    right; right. vm_compute. discriminate.
  - intros Hin.
    apply (Hiff (Str ".text") text_section text_section) in Hin;
      [|reflexivity..].
    destruct Hin as [H|[H|H]].
    + apply H. by repeat split.
    + exact (H eq_refl).
    + vm_compute in H. exact (H eq_refl).
Defined.

(** The three ways in which two sections differ, on the sections
    themselves. *)
Lemma section_modified_iff (s1 s2 : Section.t) :
  section_modified s1 s2
  <-> ~ same_header_but_name s1 s2 \/ Section.data s1 <> Section.data s2.
Proof.
  unfold section_modified.
  rewrite locate_array_diff_minus_one, <- header_diff_no_changes.
  destruct (DictDiff.has_changes (header_diff s1 s2)); split.
  - by intros _; left.
  - by intros _; left.
  - intros [[=]|[Hlen|Hdata]]; right; [|done]. intros Heq.
    by rewrite Heq in Hlen.
  - intros [H|Hdata]; [done|]. by right; right.
Qed.

(** X20.  Sections are compared by name, and among sections of one file
    that share a name only the last one counts.  A name is in [left_new]
    (in [right_new]) exactly when only the left (right) file has a section
    of that name; it is a key of [modified] exactly when the last section
    of that name of the left file and the last one of the right file
    differ.  Earlier sections of a repeated name are never compared.  Two
    sections differ when their headers differ in a field other than
    [sh_name] or their payloads differ. *)
Theorem compare_sections_by_name (self other : ComparableElf.t) :
  exists r,
    _compare_sections self other = Ok r
    /\ (forall name,
         (Str name ∈ AllSectionsDiff.left_new r <->
          (exists s, s ∈ sections self /\ Section.name s = name)
          /\ ~ exists s, s ∈ sections other /\ Section.name s = name)
         /\ (Str name ∈ AllSectionsDiff.right_new r <->
             (exists s, s ∈ sections other /\ Section.name s = name)
             /\ ~ exists s, s ∈ sections self /\ Section.name s = name)
         /\ (Str name ∈ dom (AllSectionsDiff.modified r) <->
             exists s1 s2,
               last_named name (sections self) = Some s1
               /\ last_named name (sections other) = Some s2
               /\ section_modified s1 s2))
    /\ forall s1 s2,
         section_modified s1 s2
         <-> ~ same_header_but_name s1 s2
             \/ Section.data s1 <> Section.data s2.
Proof.
  destruct (compare_sections_run self other)
    as (r & Hr & Hleft & Hright & Hmod).
  exists r. split; [done|]. split; [|apply section_modified_iff].
  intros name.
  rewrite Hmod, Hleft, Hright, !elem_of_difference, !elem_of_dom.
  rewrite !(sections_dict_lookup _ (Str name)), !last_named_is_Some.
  done.
Qed.

(** X21.  The header diff of two sections of the same name reports a
    change exactly when some header field other than [sh_name] differs: a
    section whose name moved in the string table and that is otherwise the
    same has an empty header diff, and [sh_name] is never a key of its
    [modified]. *)
Theorem header_diff_ignores_sh_name (s1 s2 : Section.t) :
  (DictDiff.has_changes (header_diff s1 s2) = false
   <-> same_header_but_name s1 s2)
  /\ DictDiff.modified (header_diff s1 s2) !! Str "sh_name" = None
  /\ DictDiff.left_new (header_diff s1 s2) = ∅
  /\ DictDiff.right_new (header_diff s1 s2) = ∅.
Proof.
  split; [apply header_diff_no_changes|].
  split; [apply lookup_delete_eq|]. split; reflexivity.
Qed.

(** ** The entry of a modified section *)

Section compare_sections_entries.

Variables sections_dict_1 sections_dict_2 : gmap atom Section.t.

(** What the loop leaves under [k] when it has handled [k]. *)
Let entry (acc : gmap atom SectionDiff.t) (k : atom) : option SectionDiff.t :=
  match sections_dict_1 !! k, sections_dict_2 !! k with
  | Some s1, Some s2 =>
      if SectionDiff.has_changes (section_diff s1 s2)
      then Some (section_diff s1 s2) else acc !! k
  | _, _ => acc !! k
  end.

Lemma compare_section_value (acc : gmap atom SectionDiff.t) (name : atom) :
  is_Some (sections_dict_1 !! name) -> is_Some (sections_dict_2 !! name) ->
  exists acc',
    compare_section sections_dict_1 sections_dict_2 acc name = Ok acc'
    /\ forall k, acc' !! k = if decide (k = name) then entry acc k
                             else acc !! k.
Proof.
  intros [s1 H1] [s2 H2]. unfold compare_section, getitem.
  rewrite H1, H2. cbn [rbind]. fold (header_diff s1 s2).
  fold (section_diff s1 s2).
  eexists. split; [reflexivity|]. intros k. unfold entry.
  destruct (decide (k = name)) as [->|Hne].
  - rewrite H1, H2.
    destruct (SectionDiff.has_changes (section_diff s1 s2)); [|done].
    by rewrite lookup_insert_eq.
  - destruct (SectionDiff.has_changes (section_diff s1 s2)); [|done].
    by rewrite lookup_insert_ne.
Qed.

Lemma for_each_compare_section_value (names : list atom)
    (acc : gmap atom SectionDiff.t) :
  (forall k, k ∈ names ->
             is_Some (sections_dict_1 !! k)
             /\ is_Some (sections_dict_2 !! k)) ->
  exists acc',
    for_each (compare_section sections_dict_1 sections_dict_2) names acc
    = Ok acc'
    /\ forall k, acc' !! k = if decide (k ∈ names) then entry acc k
                             else acc !! k.
Proof.
  revert acc. induction names as [|name names IH]; intros acc Hcommon.
  - eexists. split; [reflexivity|]. intros k.
    rewrite decide_False; [done|]. apply not_elem_of_nil.
  - destruct (Hcommon name) as [Hn1 Hn2]; [left|].
    destruct (compare_section_value acc name Hn1 Hn2) as (acc1 & Hacc1 & H1).
    destruct (IH acc1) as (acc2 & Hacc2 & H2).
    { intros k Hk. apply Hcommon. by right. }
    exists acc2. simpl. rewrite Hacc1. simpl. split; [done|].
    intros k. rewrite H2. unfold entry in *. rewrite !H1.
    destruct (decide (k ∈ names)) as [Hin|Hnin].
    + rewrite (decide_True (P := k ∈ name :: names)) by (by right).
      destruct (decide (k = name)) as [->|Hne]; [|done].
      destruct (sections_dict_1 !! name) as [s1|]; [|done].
      destruct (sections_dict_2 !! name) as [s2|]; [|done].
      by destruct (SectionDiff.has_changes (section_diff s1 s2)).
    + destruct (decide (k = name)) as [->|Hne].
      * by rewrite (decide_True (P := name ∈ name :: names)) by left.
      * rewrite (decide_False (P := k ∈ name :: names)); [done|].
        by intros [?|?]%elem_of_cons.
Qed.

End compare_sections_entries.

Lemma section_diff_has_changes_iff (s1 s2 : Section.t) :
  SectionDiff.has_changes (section_diff s1 s2) = true
  <-> section_modified s1 s2.
Proof. apply section_diff_has_changes. Qed.

Lemma section_diff_fields (s1 s2 : Section.t) :
  let e := section_diff s1 s2 in
  (SectionDiff.headers e = None <-> same_header_but_name s1 s2)
  /\ (SectionDiff.headers e <> None ->
      SectionDiff.headers e = Some (header_diff s1 s2))
  /\ (SectionDiff.data_sizes e = None <->
      length (Section.data s1) = length (Section.data s2))
  /\ (SectionDiff.data_sizes e <> None ->
      SectionDiff.data_sizes e
      = Some (len (Section.data s1), len (Section.data s2)))
  /\ (SectionDiff.data_diff_offset e = -1 <->
      Section.data s1 = Section.data s2).
Proof.
  intros e. unfold e, section_diff.
  cbn [SectionDiff.headers SectionDiff.data_sizes
         SectionDiff.data_diff_offset].
  split_and!.
  - rewrite <- header_diff_no_changes.
    generalize (header_diff s1 s2). intros d.
    destruct (DictDiff.has_changes d); split; congruence.
  - generalize (header_diff s1 s2). intros d.
    destruct (DictDiff.has_changes d); congruence.
  - unfold len.
    destruct (Z.eqb_spec (Z.of_nat (length (Section.data s1)))
                (Z.of_nat (length (Section.data s2))));
      cbn [negb]; split; first [congruence|lia].
  - destruct (negb _); congruence.
  - apply locate_array_diff_minus_one.
Qed.

(** X22.  The entry stored for a modified section says in which ways the
    two sections (the last of that name in each file) differ: [headers] is
    [None] exactly when all header fields but [sh_name] agree and is the
    header diff otherwise, [data_sizes] is [None] exactly when the payloads
    have the same length and is the two lengths otherwise, and
    [data_diff_offset] is [-1] exactly when the payloads are equal. *)
Theorem compare_sections_entry (self other : ComparableElf.t) :
  exists r,
    _compare_sections self other = Ok r
    /\ forall name e,
         AllSectionsDiff.modified r !! Str name = Some e <->
         exists s1 s2,
           last_named name (sections self) = Some s1
           /\ last_named name (sections other) = Some s2
           /\ section_modified s1 s2
           /\ e = section_diff s1 s2
           /\ (SectionDiff.headers e = None <-> same_header_but_name s1 s2)
           /\ (SectionDiff.headers e <> None ->
               SectionDiff.headers e = Some (header_diff s1 s2))
           /\ (SectionDiff.data_sizes e = None <->
               length (Section.data s1) = length (Section.data s2))
           /\ (SectionDiff.data_sizes e <> None ->
               SectionDiff.data_sizes e
               = Some (len (Section.data s1), len (Section.data s2)))
           /\ (SectionDiff.data_diff_offset e = -1 <->
               Section.data s1 = Section.data s2).
Proof.
  unfold _compare_sections.
  set (d1 := sections_dict (sections self)).
  set (d2 := sections_dict (sections other)).
  set (names := elements _).
  assert (forall k, k ∈ names <-> is_Some (d1 !! k) /\ is_Some (d2 !! k))
    as Hnames.
  { intros k. unfold names.
    by rewrite elem_of_elements, compare_dict_with_common,
      elem_of_intersection, !elem_of_dom. }
  destruct (for_each_compare_section_value d1 d2 names ∅) as (m & Hm & Hlook).
  { intros k. apply Hnames. }
  rewrite Hm. simpl. eexists. split; [reflexivity|]. simpl.
  intros name e. rewrite Hlook.
  unfold d1, d2 in *. rewrite lookup_empty.
  destruct (decide (Str name ∈ names)) as [Hin|Hnin].
  - apply Hnames in Hin as [[s1 H1] [s2 H2]]. rewrite H1, H2.
    rewrite sections_dict_lookup in H1, H2. rewrite H1, H2.
    destruct (SectionDiff.has_changes (section_diff s1 s2)) eqn:Hc.
    + apply section_diff_has_changes_iff in Hc. split.
      * intros [= <-]. exists s1, s2.
        split; [reflexivity|]. split; [reflexivity|].
        split; [exact Hc|]. split; [reflexivity|].
        apply section_diff_fields.
      * by intros (? & ? & [= <-] & [= <-] & _ & -> & _).
    + split; [done|].
      intros (? & ? & [= <-] & [= <-] & Hmod & _).
      apply section_diff_has_changes_iff in Hmod. congruence.
  - split; [done|]. intros (s1 & s2 & H1 & H2 & _). destruct Hnin.
    apply Hnames. rewrite !sections_dict_lookup, H1, H2. split; by eexists.
Qed.

(** ** The flattened ELF header *)

Lemma header_raw_equal (f1 f2 : ELFFile.t) :
  make_header_raw f1 = make_header_raw f2 <-> same_elf_header f1 f2.
Proof.
  split.
  - intros Heq.
    assert (forall k, make_header_raw f1 !! k = make_header_raw f2 !! k)
      as Hk by (intros k; by rewrite Heq).
    pose proof (Hk (Str "EI_MAG")) as H1.
    pose proof (Hk (Str "EI_CLASS")) as H2.
    pose proof (Hk (Str "EI_DATA")) as H3.
    pose proof (Hk (Str "EI_VERSION")) as H4.
    pose proof (Hk (Str "EI_OSABI")) as H5.
    pose proof (Hk (Str "EI_ABIVERSION")) as H6.
    pose proof (Hk (Str "e_type")) as H7.
    pose proof (Hk (Str "e_machine")) as H8.
    pose proof (Hk (Str "e_version")) as H9.
    pose proof (Hk (Str "e_entry")) as H10.
    pose proof (Hk (Str "e_phoff")) as H11.
    pose proof (Hk (Str "e_shoff")) as H12.
    pose proof (Hk (Str "e_flags")) as H13.
    pose proof (Hk (Str "e_ehsize")) as H14.
    pose proof (Hk (Str "e_phentsize")) as H15.
    pose proof (Hk (Str "e_phnum")) as H16.
    pose proof (Hk (Str "e_shentsize")) as H17.
    pose proof (Hk (Str "e_shnum")) as H18.
    pose proof (Hk (Str "e_shstrndx")) as H19.
    change (Some (Ints (ELFFile.EI_MAG f1))
            = Some (Ints (ELFFile.EI_MAG f2))) in H1.
    change (Some (Atom (ELFFile.EI_CLASS f1))
            = Some (Atom (ELFFile.EI_CLASS f2))) in H2.
    change (Some (Atom (ELFFile.EI_DATA f1))
            = Some (Atom (ELFFile.EI_DATA f2))) in H3.
    change (Some (Atom (ELFFile.EI_VERSION f1))
            = Some (Atom (ELFFile.EI_VERSION f2))) in H4.
    change (Some (Atom (ELFFile.EI_OSABI f1))
            = Some (Atom (ELFFile.EI_OSABI f2))) in H5.
    change (Some (Atom (Int (ELFFile.EI_ABIVERSION f1)))
            = Some (Atom (Int (ELFFile.EI_ABIVERSION f2)))) in H6.
    change (Some (Atom (ELFFile.e_type f1))
            = Some (Atom (ELFFile.e_type f2))) in H7.
    change (Some (Atom (ELFFile.e_machine f1))
            = Some (Atom (ELFFile.e_machine f2))) in H8.
    change (Some (Atom (ELFFile.e_version f1))
            = Some (Atom (ELFFile.e_version f2))) in H9.
    change (Some (Atom (Int (ELFFile.e_entry f1)))
            = Some (Atom (Int (ELFFile.e_entry f2)))) in H10.
    change (Some (Atom (Int (ELFFile.e_phoff f1)))
            = Some (Atom (Int (ELFFile.e_phoff f2)))) in H11.
    change (Some (Atom (Int (ELFFile.e_shoff f1)))
            = Some (Atom (Int (ELFFile.e_shoff f2)))) in H12.
    change (Some (Atom (Int (ELFFile.e_flags f1)))
            = Some (Atom (Int (ELFFile.e_flags f2)))) in H13.
    change (Some (Atom (Int (ELFFile.e_ehsize f1)))
            = Some (Atom (Int (ELFFile.e_ehsize f2)))) in H14.
    change (Some (Atom (Int (ELFFile.e_phentsize f1)))
            = Some (Atom (Int (ELFFile.e_phentsize f2)))) in H15.
    change (Some (Atom (Int (ELFFile.e_phnum f1)))
            = Some (Atom (Int (ELFFile.e_phnum f2)))) in H16.
    change (Some (Atom (Int (ELFFile.e_shentsize f1)))
            = Some (Atom (Int (ELFFile.e_shentsize f2)))) in H17.
    change (Some (Atom (Int (ELFFile.e_shnum f1)))
            = Some (Atom (Int (ELFFile.e_shnum f2)))) in H18.
    change (Some (Atom (Int (ELFFile.e_shstrndx f1)))
            = Some (Atom (Int (ELFFile.e_shstrndx f2)))) in H19.
    unfold same_elf_header. split_and!; congruence.
  - intros (H1 & H2 & H3 & H4 & H5 & H6 & H7 & H8 & H9 & H10 & H11 & H12
            & H13 & H14 & H15 & H16 & H17 & H18 & H19).
    unfold make_header_raw, ELFFile.header, ELFFile.e_ident.
    by rewrite H1, H2, H3, H4, H5, H6, H7, H8, H9, H10, H11, H12, H13, H14,
      H15, H16, H17, H18, H19.
Qed.

Lemma compare_dict_flat_lookup (d1 d2 : gmap atom value) (k : atom)
    (v1 v2 : value) :
  d1 !! k = Some v1 -> d2 !! k = Some v2 ->
  DictDiff.modified (compare_dict d1 d2 false true false operator_eq) !! k
  = if decide (v1 = v2) then None else Some (Pair v1 v2).
Proof.
  intros H1 H2. unfold compare_dict.
  rewrite compare_dict_with_modified_lookup, H1, H2, modified_value_unfold.
  unfold operator_eq. case_bool_decide; by destruct (decide (v1 = v2)).
Qed.

(** X23.  The header diff of two files works on the flattened header: the
    identification fields sit beside the other fields and [e_ident] is no
    key.  Both headers have the same keys, so nothing is new on either side;
    the diff has no changes exactly when the two headers agree in all their
    fields; and a field such as [EI_OSABI] or [EI_ABIVERSION] is a key of
    [modified], with the pair of its two values, exactly when the values
    differ. *)
Theorem compare_headers_fields (f1 f2 : ELFFile.t) :
  let d := compare_dict (make_header_raw f1) (make_header_raw f2)
             false true false operator_eq in
  make_header_raw f1 !! Str "e_ident" = None
  /\ DictDiff.left_new d = ∅ /\ DictDiff.right_new d = ∅
  /\ (DictDiff.has_changes d = false <-> same_elf_header f1 f2)
  /\ DictDiff.modified d !! Str "EI_OSABI"
     = (if decide (ELFFile.EI_OSABI f1 = ELFFile.EI_OSABI f2) then None
        else Some (Pair (Atom (ELFFile.EI_OSABI f1))
                     (Atom (ELFFile.EI_OSABI f2))))
  /\ DictDiff.modified d !! Str "EI_ABIVERSION"
     = (if decide (ELFFile.EI_ABIVERSION f1 = ELFFile.EI_ABIVERSION f2)
        then None
        else Some (Pair (Atom (Int (ELFFile.EI_ABIVERSION f1)))
                     (Atom (Int (ELFFile.EI_ABIVERSION f2))))).
Proof.
  intros d. split_and!.
  - reflexivity.
  - reflexivity.
  - reflexivity.
  - unfold d, compare_dict.
    rewrite compare_dict_with_no_changes; [|apply operator_eq_spec|done].
    apply header_raw_equal.
  - unfold d.
    rewrite (compare_dict_flat_lookup _ _ _ (Atom (ELFFile.EI_OSABI f1))
               (Atom (ELFFile.EI_OSABI f2))) by reflexivity.
    destruct (decide (ELFFile.EI_OSABI f1 = ELFFile.EI_OSABI f2))
      as [->|Hne].
    + by rewrite decide_True.
    + rewrite decide_False; [done|congruence].
  - unfold d.
    rewrite (compare_dict_flat_lookup _ _ _
               (Atom (Int (ELFFile.EI_ABIVERSION f1)))
               (Atom (Int (ELFFile.EI_ABIVERSION f2)))) by reflexivity.
    destruct (decide (ELFFile.EI_ABIVERSION f1 = ELFFile.EI_ABIVERSION f2))
      as [->|Hne].
    + by rewrite decide_True.
    + rewrite decide_False; [done|congruence].
Qed.

(** ** The printed report *)

Lemma append_nonempty (s t : string) : s <> "" -> s +:+ t <> "".
Proof. by destruct s. Qed.

Lemma join_nonempty (sep x : string) (l : list string) :
  x <> "" -> join sep (x :: l) <> "".
Proof.
  intros Hx. destruct l as [|y l]; [done|].
  by apply append_nonempty.
Qed.

(** The last two statements of the [__str__] methods: the text is empty only
    when no part was collected. *)
Lemma indented_join_empty (indent sep : string) (result : list string) :
  Forall (fun part => part <> "") result ->
  match result with [] => "" | _ => indent end +:+ join sep result = ""
  <-> result = [].
Proof.
  intros Hparts. split; [|by intros ->].
  destruct Hparts as [|part result Hpart _]; [done|].
  intros Hempty. exfalso.
  destruct indent; [|done].
  by apply (join_nonempty sep part result).
Qed.

Lemma join_empty (sep : string) (result : list string) :
  Forall (fun part => part <> "") result ->
  join sep result = "" <-> result = [].
Proof.
  intros Hparts.
  rewrite <- (indented_join_empty "" sep result Hparts).
  by destruct result.
Qed.

Lemma Forall_snoc_nonempty (result : list string) (part : string) :
  Forall (fun part => part <> "") result -> part <> "" ->
  Forall (fun part => part <> "") (result ++ [part]).
Proof. intros. apply Forall_app. by repeat constructor. Qed.

Lemma snoc_not_nil {A : Type} (l : list A) (x : A) : l ++ [x] <> [].
Proof. by destruct l. Qed.

Lemma to_string_with_empty {M : Type} (py : builtins)
    (entry : M -> string * string) (self : DictDiff.t M)
    (indent header : string) :
  to_string_with py entry self indent header default_sub_headers = ""
  <-> DictDiff.has_changes self = false.
Proof.
  unfold to_string_with.
  set (items := map _ (map_to_list _)).
  assert (Forall (fun part => part <> "") items) as Hitems.
  { apply Forall_forall. intros part Hpart.
    apply list_elem_of_fmap in Hpart as ([key [sep piece]] & -> & _).
    by apply join_nonempty. }
  assert (items = [] <-> dom (DictDiff.modified self) = ∅) as Hnil.
  { unfold items. rewrite dom_empty_iff_L.
    rewrite <- (fmap_empty_iff entry (DictDiff.modified self)).
    rewrite <- (map_to_list_empty_iff (entry <$> DictDiff.modified self)).
    split; [apply fmap_nil_inv|by intros ->]. }
  pose proof (has_changes_false self) as Hfalse.
  rewrite indented_join_empty.
  - destruct (DictDiff.has_changes self).
    + split; [|done]. intros Hresult.
      apply app_nil in Hresult as [Hresult Hitems'].
      apply Hfalse.
      repeat case_bool_decide; simpl in Hresult;
        try (by destruct (snoc_not_nil _ _ Hresult)).
      split_and!; [done..|by apply Hnil].
    + destruct (proj1 Hfalse eq_refl) as (Hleft & Hright & Hmod).
      split; [done|]. intros _.
      rewrite !bool_decide_eq_true_2 by done.
      by apply Hnil in Hmod as ->.
  - apply Forall_app. split; [|done].
    destruct (DictDiff.has_changes self && nonempty header) eqn:Hheader;
      repeat case_bool_decide; simpl; repeat constructor; try done.
    all: apply andb_true_iff in Hheader as [_ Hheader]; by destruct header.
Qed.

(** X24.  [DictDiff.to_string] with the default sub-headers (and so
    [DictDiff.__str__]) returns the empty string exactly when [has_changes]
    is false, whatever the indent, the number format and the header. *)
Theorem to_string_empty_iff (py : builtins) (self : DictDiff.t diff_value)
    (indent numbers_format header : string) :
  (to_string py self indent numbers_format header default_sub_headers = ""
   <-> DictDiff.has_changes self = false)
  /\ (DictDiff_str py self = "" <-> DictDiff.has_changes self = false).
Proof. split; apply to_string_with_empty. Qed.

Lemma SectionDiff_str_empty (py : builtins) (self : SectionDiff.t) :
  SectionDiff_str py self = "" <-> SectionDiff.has_changes self = false.
Proof.
  unfold SectionDiff_str, SectionDiff.has_changes.
  rewrite negb_false_iff, !andb_true_iff, !bool_decide_eq_true.
  rewrite indented_join_empty.
  - destruct (SectionDiff.headers self), (SectionDiff.data_sizes self),
      (SectionDiff.data_diff_offset self =? -1); simpl;
      split; try done; try (by intros [[[=] ?] ?]);
      try (by intros [[? [=]] ?]); by intros [[? ?] [=]].
  - destruct (SectionDiff.headers self), (SectionDiff.data_sizes self),
      (SectionDiff.data_diff_offset self =? -1); simpl;
      by repeat constructor.
Qed.

Lemma AllSectionsDiff_str_empty (py : builtins) (self : AllSectionsDiff.t) :
  AllSectionsDiff_str py self = ""
  <-> AllSectionsDiff.has_changes self = false.
Proof.
  unfold AllSectionsDiff_str.
  destruct (AllSectionsDiff.has_changes self) eqn:Hchanges; [|done].
  split; [|done]. intros Hempty. exfalso.
  set (items := map _ (map_to_list _)) in Hempty.
  assert (Forall (fun part => part <> "") items) as Hitems.
  { apply Forall_forall. intros part Hpart.
    by apply list_elem_of_fmap in Hpart as ([key diff] & -> & _). }
  apply indented_join_empty in Hempty.
  - apply app_nil in Hempty as [Hempty Hnil].
    unfold AllSectionsDiff.has_changes in Hchanges.
    apply fmap_nil_inv, map_to_list_empty_iff in Hnil.
    rewrite Hnil, dom_empty_L in Hchanges.
    repeat case_bool_decide; simpl in Hempty;
      try (by destruct (snoc_not_nil _ _ Hempty)); done.
  - apply Forall_app. split; [|done].
    repeat case_bool_decide; simpl; by repeat constructor.
Qed.

(** X25.  [SectionDiff.__str__] and [AllSectionsDiff.__str__] return the
    empty string exactly when [has_changes] of the object is false. *)
Theorem sections_str_empty_iff (py : builtins) :
  (forall self : SectionDiff.t,
     SectionDiff_str py self = "" <-> SectionDiff.has_changes self = false)
  /\ (forall self : AllSectionsDiff.t,
        AllSectionsDiff_str py self = ""
        <-> AllSectionsDiff.has_changes self = false).
Proof.
  split; [apply SectionDiff_str_empty|apply AllSectionsDiff_str_empty].
Qed.

Lemma NotUsedBlockDiff_str_empty (py : builtins) (indent : string)
    (self : NotUsedBlockDiff.t) :
  NotUsedBlockDiff_str py indent self = ""
  <-> NotUsedBlockDiff.has_changes self = false.
Proof.
  unfold NotUsedBlockDiff_str.
  destruct (NotUsedBlockDiff.has_changes self) eqn:Hchanges; [|done].
  split; [|done]. intros Hempty. exfalso.
  unfold NotUsedBlockDiff.has_changes in Hchanges.
  apply indented_join_empty in Hempty.
  - destruct (NotUsedBlockDiff.data_sizes self),
      (NotUsedBlockDiff.data_diff_offset self =? -1); by simpl in *.
  - destruct (NotUsedBlockDiff.data_sizes self),
      (NotUsedBlockDiff.data_diff_offset self =? -1); simpl;
      by repeat constructor.
Qed.

Lemma join_head_nonempty (indent sep part : string) (rest : list string) :
  part <> "" -> indent +:+ join sep (part :: rest) <> "".
Proof.
  intros Hpart Hempty. destruct indent; [|done].
  by apply (join_nonempty sep part rest).
Qed.

Lemma AllBlocksDiff_str_empty (py : builtins) (h : heap) (attrs : indents)
    (self : AllBlocksDiff.t) :
  (AllBlocksDiff_str py h attrs self).1 = ""
  <-> AllBlocksDiff.has_changes h self = false.
Proof.
  unfold AllBlocksDiff_str.
  destruct (AllBlocksDiff.has_changes h self) eqn:Hchanges; [|done].
  split; [|done]. intros Hempty. exfalso.
  unfold AllBlocksDiff.has_changes in Hchanges.
  destruct (AllBlocksDiff.left_overlaps_in_used self),
    (AllBlocksDiff.right_overlaps_in_used self),
    (AllBlocksDiff.counts_of_not_used self),
    (deref h (AllBlocksDiff.diffs_in_not_used self));
    cbn [negb bool_decide decide_rel orb fst snd app] in Hempty, Hchanges;
    try discriminate Hchanges;
    by apply join_head_nonempty in Hempty.
Qed.


(** X26.  [NotUsedBlockDiff.__str__] and [AllBlocksDiff.__str__] return the
    empty string exactly when [has_changes] of the object is false, whatever
    the class attributes [indent] are. *)
Theorem blocks_str_empty_iff (py : builtins) (h : heap) (attrs : indents) :
  (forall self : NotUsedBlockDiff.t,
     NotUsedBlockDiff_str py (NotUsedBlockDiff_indent attrs) self = ""
     <-> NotUsedBlockDiff.has_changes self = false)
  /\ (forall self : AllBlocksDiff.t,
        (AllBlocksDiff_str py h attrs self).1 = ""
        <-> AllBlocksDiff.has_changes h self = false).
Proof.
  split; [apply NotUsedBlockDiff_str_empty|apply AllBlocksDiff_str_empty].
Qed.


(** X28.  [ElfDiff.__str__], the text [print] shows for a report, is the
    empty string exactly when the report's [has_changes] is false. *)
Theorem report_str_empty_iff (py : builtins) (h : heap) (attrs : indents)
    (self : ElfDiff.t) :
  (ElfDiff_str py h attrs self).1 = ""
  <-> ElfDiff.has_changes h self = false.
Proof.
  unfold ElfDiff_str.
  destruct (ElfDiff.has_changes h self) eqn:Hchanges; [|done].
  split; [|done]. intros Hempty. exfalso.
  unfold ElfDiff.has_changes in Hchanges.
  destruct (AllBlocksDiff_str py h attrs _) as [text attrs'].
  destruct (DictDiff.has_changes (ElfDiff.compared_elf_headers self)),
    (DictDiff.has_changes (ElfDiff.compared_segments self)),
    (AllSectionsDiff.has_changes (ElfDiff.compared_sections self)),
    (AllBlocksDiff.has_changes h (ElfDiff.compared_blocks self));
    cbn [negb orb fst snd app] in Hempty, Hchanges;
    try discriminate Hchanges;
    by apply join_nonempty in Hempty.
Qed.

(** ** Overlaps are never reported *)

(** X15.  Comparing two parsed files, whose offsets and sizes are unsigned
    and whose tables and sections start within the file, returns a report
    whose two overlap lists are empty, whatever overlaps the used blocks of
    the files have: the lists are computed on the not-used blocks, which are
    separated. *)
Theorem compare_to_reports_no_overlap (left right : ELFFile.t)
    (self other : ComparableElf.t) (h : heap) :
  read_metadata left = Ok self -> read_metadata right = Ok other ->
  nonneg_sizes left -> nonneg_offsets left -> offsets_in_file left ->
  nonneg_sizes right -> nonneg_offsets right -> offsets_in_file right ->
  exists h' report,
    compare_to self other h = (h', Ok report)
    /\ AllBlocksDiff.left_overlaps_in_used (ElfDiff.compared_blocks report)
       = []
    /\ AllBlocksDiff.right_overlaps_in_used (ElfDiff.compared_blocks report)
       = [].
Proof.
  intros Hself Hother Hsl Hol Hil Hsr Hor Hir.
  destruct (compare_sections_run self other) as (secs & Hsecs & _).
  destruct (compare_blocks_run self other h)
    as (blocks & diffs & Hblocks & _).
  { by eapply read_metadata_not_used_in_file. }
  { by eapply read_metadata_not_used_in_file. }
  destruct (compare_blocks_overlaps _ _ _ _ _ Hblocks) as [Hlo Hro].
  rewrite (read_metadata_not_used_separated left self Hsl Hself) in Hlo.
  rewrite (read_metadata_not_used_separated right other Hsr Hother) in Hro.
  unfold compare_to, bind, lift, ret. rewrite Hsecs, Hblocks.
  eexists _, _. split; [reflexivity|]. by split.
Qed.

(** The theorem at [overlap_file], whose used blocks overlap, and
    [tables_file]. *)
Lemma compare_to_reports_no_overlap_witness :
  _check_overlapped_blocks (used_blocks overlap_elf) <> []
  /\ exists h' report,
       compare_to overlap_elf tables_elf heap_at_import = (h', Ok report)
       /\ AllBlocksDiff.left_overlaps_in_used
            (ElfDiff.compared_blocks report) = []
       /\ AllBlocksDiff.right_overlaps_in_used
            (ElfDiff.compared_blocks report) = [].
Proof.
  split; [discriminate|].
  exact (compare_to_reports_no_overlap overlap_file tables_file overlap_elf
           tables_elf heap_at_import eq_refl eq_refl
           (proj1 nonneg_overlap_file) (proj2 nonneg_overlap_file)
           offsets_in_overlap_file
           (proj1 nonneg_tables_file) (proj2 nonneg_tables_file)
           offsets_in_tables_file).
Defined.
